(** * Skia GPU back end: advanced blend modes and the MSAA path renderer

    A shallow embedding of
      - src/gpu/effects/GrCustomXfermode.cpp  (module [GrCustomXfermode], [CoverageTweak])
      - src/gpu/ops/GrMSAAPathRenderer.cpp    (module [GrMSAAPathRenderer])
    and the properties of their natural-language specification.

    Conventions.  A C++ [int] is a [Z], checked against the [int] range
    where the renderer adds counts; an enumerator is the [Z] it converts to.
    What the two files use but do not declare is a parameter: the
    enumerator values are [Variable]s of a section, [GrCaps] is a record of
    its answers, and [SkMatrix], [SkPath], the curve converters and the
    other collaborators of the renderer are the fields of the class [Skia].
    Objects mutated in place are passed and returned.  The definitions come
    first, the properties after them, module by module. *)

From Stdlib Require Import String ZArith QArith Qminmax List Permutation Bool Lia Reals Lra.
Import ListNotations.

Local Open Scope Z_scope.

(* ====================================================================== *)
(** ** GrCustomXfermode.cpp                                                *)
(* ====================================================================== *)

Module GrCustomXfermode.

(** What the capability object answers ([GrCaps], consumed only through
    these three queries).

    Modelled from the spec: GrCaps.h is not among the sources, so what an
    answer of [canUseAdvancedBlendEquation] means is taken from "the backend
    does not refuse that specific equation".  The answer is the refusal: true
    when the equation is on the backend's list of advanced equations it must
    not use, false when the backend does not refuse it.  This is also how
    [can_use_hw_blend_equation] treats it, as a blocking test written like
    the two before it. *)
Record GrCaps := {
  advancedBlendEquationSupport : bool;
  advancedCoherentBlendEquationSupport : bool;
  canUseAdvancedBlendEquation : Z -> bool
}.

(** [GrProcOptInfo]: the three queries the file makes on it. *)
Record GrProcOptInfo := {
  allStagesMultiplyInput : bool;
  isFourChannelOutput : bool;
  isSolidWhite : bool
}.

Record GrPipelineAnalysis := {
  fColorPOI : GrProcOptInfo;
  fCoveragePOI : GrProcOptInfo;
  fUsesPLSDstRead : bool
}.

(** The two ways [CustomXP] initialises its [GrXferProcessor] base:
    implicitly (default constructor) or with
    [INHERITED(dstTexture, true, hasMixedSamples)]. *)
Inductive XferBase (DstTexture : Type) :=
| XferBase_default
| XferBase_dstRead (dstTexture : option DstTexture)
                   (willReadDstColor hasMixedSamples : bool).
Arguments XferBase_default {DstTexture}.
Arguments XferBase_dstRead {DstTexture}.

(** Modelled from the spec: [GrXferProcessor::willReadDstColor] lives in
    GrXferProcessor.{h,cpp}, which are not among the sources.  The native
    configuration performs no destination read; the shader fallback
    "requires reading back the destination color", which is the [true] that
    [CustomXP] hands to the base constructor. *)
Definition base_willReadDstColor {D} (b : XferBase D) : bool :=
  match b with
  | XferBase_default => false
  | XferBase_dstRead _ w _ => w
  end.

Record CustomXP (DstTexture : Type) := {
  xp_base : XferBase DstTexture;
  fMode : Z;
  fHWBlendEquation : Z
}.
Arguments xp_base {DstTexture}.
Arguments fMode {DstTexture}.
Arguments fHWBlendEquation {DstTexture}.

(** [OptFlags]: the two bits this file can set. *)
Record OptFlags := {
  kCanTweakAlphaForCoverage_OptFlag : bool;
  kIgnoreCoverage_OptFlag : bool
}.

Inductive GrXferBarrierType := kNone_GrXferBarrierType | kBlend_GrXferBarrierType.

(** [GrShaderCaps], as [GLCustomXP::GenKey] asks it. *)
Record GrShaderCaps := {
  advBlendEqInteraction : Z;
  mustEnableSpecificAdvBlendEqs : bool
}.

Section Enumerators.

(** Enumerators of [SkBlendMode] (SkBlendMode.h) and of [GrBlendEquation]
    (GrBlend.h), as the ints they convert to. *)
Variables kLastCoeffMode kLastSeparableMode kLastMode kOverlay : Z.
Variable kOverlay_GrBlendEquation : Z.

Variable DstTexture : Type.

(** [GrCustomXfermode::IsSupportedMode] *)
Definition IsSupportedMode (mode : Z) : bool :=
  (mode >? kLastCoeffMode) && (mode <=? kLastMode).

(** The modes the enumeration calls separable are those up to
    [kLastSeparableMode]; of them the ones up to [kLastCoeffMode] are the
    coefficient (Porter-Duff) modes. *)
Definition is_coeff_mode (mode : Z) : bool := mode <=? kLastCoeffMode.
Definition is_separable_mode (mode : Z) : bool := mode <=? kLastSeparableMode.

(** [hw_blend_equation]: [enum { kOffset = ... }] and the cast. *)
Definition kOffset : Z := kOverlay_GrBlendEquation - kOverlay.
Definition hw_blend_equation (mode : Z) : Z := mode + kOffset.

(** [can_use_hw_blend_equation] *)
Definition can_use_hw_blend_equation
    (equation : Z) (analysis : GrPipelineAnalysis) (caps : GrCaps) : bool :=
  if negb (advancedBlendEquationSupport caps) then false
  else if fUsesPLSDstRead analysis then false
  else if isFourChannelOutput (fCoveragePOI analysis) then false
  else if canUseAdvancedBlendEquation caps equation then false
  else true.

(** The two constructors of [CustomXP]. *)
Definition CustomXP_hw (mode hwBlendEquation : Z) : CustomXP DstTexture :=
  {| xp_base := XferBase_default;
     fMode := mode;
     fHWBlendEquation := hwBlendEquation |}.

Definition CustomXP_dst (dstTexture : option DstTexture) (hasMixedSamples : bool)
    (mode : Z) : CustomXP DstTexture :=
  {| xp_base := XferBase_dstRead dstTexture true hasMixedSamples;
     fMode := mode;
     fHWBlendEquation := -1 |}.

Definition mode (xp : CustomXP DstTexture) : Z := fMode xp.

Definition hasHWBlendEquation (xp : CustomXP DstTexture) : bool :=
  negb (-1 =? fHWBlendEquation xp).

Definition willReadDstColor (xp : CustomXP DstTexture) : bool :=
  base_willReadDstColor (xp_base xp).

(** [GLCustomXP::GenKey]: the [uint32_t] handed to [b->add32]. *)
Definition GenKey (xp : CustomXP DstTexture) (caps : GrShaderCaps) : Z :=
  let key := 0 in
  let key :=
    if hasHWBlendEquation xp then Z.lor key (advBlendEqInteraction caps) mod 2 ^ 32
    else key in
  let key :=
    if negb (hasHWBlendEquation xp) || mustEnableSpecificAdvBlendEqs caps
    then Z.lor key (Z.shiftl (mode xp) 3) mod 2 ^ 32
    else key in
  key.

(** [CustomXP::onIsEqual] *)
Definition onIsEqual (this other : CustomXP DstTexture) : bool :=
  (fMode this =? fMode other) && (fHWBlendEquation this =? fHWBlendEquation other).

(** [CustomXP::onGetOptimizations] (the flags; [overrideColor] is not written). *)
Definition onGetOptimizations (this : CustomXP DstTexture)
    (analysis : GrPipelineAnalysis) : OptFlags :=
  {| kCanTweakAlphaForCoverage_OptFlag := allStagesMultiplyInput (fColorPOI analysis);
     kIgnoreCoverage_OptFlag :=
       hasHWBlendEquation this && isSolidWhite (fCoveragePOI analysis) |}.

(** [CustomXP::onXferBarrier] *)
Definition onXferBarrier (this : CustomXP DstTexture) (caps : GrCaps)
    : GrXferBarrierType :=
  if hasHWBlendEquation this && negb (advancedCoherentBlendEquationSupport caps)
  then kBlend_GrXferBarrierType
  else kNone_GrXferBarrierType.

(** [CustomXPFactory]: its two fields and its constructor. *)
Record CustomXPFactory := {
  xpf_fMode : Z;
  xpf_fHWBlendEquation : Z
}.

Definition CustomXPFactory_new (mode : Z) : CustomXPFactory :=
  {| xpf_fMode := mode; xpf_fHWBlendEquation := hw_blend_equation mode |}.

(** [CustomXPFactory::onCreateXferProcessor] *)
Definition onCreateXferProcessor (this : CustomXPFactory) (caps : GrCaps)
    (analysis : GrPipelineAnalysis) (hasMixedSamples : bool)
    (dstTexture : option DstTexture) : CustomXP DstTexture :=
  if can_use_hw_blend_equation (xpf_fHWBlendEquation this) analysis caps
  then CustomXP_hw (xpf_fMode this) (xpf_fHWBlendEquation this)
  else CustomXP_dst dstTexture hasMixedSamples (xpf_fMode this).

(** [CustomXPFactory::onWillReadDstColor] *)
Definition onWillReadDstColor (this : CustomXPFactory) (caps : GrCaps)
    (analysis : GrPipelineAnalysis) : bool :=
  negb (can_use_hw_blend_equation (xpf_fHWBlendEquation this) analysis caps).

(** [GrCustomXfermode::MakeXPFactory]; [None] is [nullptr]. *)
Definition MakeXPFactory (mode : Z) : option CustomXPFactory :=
  if negb (IsSupportedMode mode) then None
  else Some (CustomXPFactory_new mode).

(** [CustomXP::createGLSLInstance]: the condition of its [SkASSERT],
    [willReadDstColor() != hasHWBlendEquation()]. *)
Definition createGLSLInstance_asserts (xp : CustomXP DstTexture) : bool :=
  negb (Bool.eqb (willReadDstColor xp) (hasHWBlendEquation xp)).

(** [CustomXP::onGetBlendInfo], on the field [fEquation] of the [BlendInfo]
    it is handed, the only one it may write. *)
Definition onGetBlendInfo (xp : CustomXP DstTexture) (fEquation : Z) : Z :=
  if hasHWBlendEquation xp then fHWBlendEquation xp else fEquation.

(** [CustomXPFactory::onIsEqual] *)
Definition CustomXPFactory_onIsEqual (this xpf : CustomXPFactory) : bool :=
  xpf_fMode this =? xpf_fMode xpf.

(** [CustomXPFactory::TestCreate]; [nextRangeU min max] is the draw of
    [d->fRandom]. *)
Definition TestCreate (nextRangeU : Z -> Z -> Z) : CustomXPFactory :=
  CustomXPFactory_new (nextRangeU (kLastCoeffMode + 1) kLastSeparableMode).

End Enumerators.

Arguments mode {DstTexture}.
Arguments hasHWBlendEquation {DstTexture}.
Arguments willReadDstColor {DstTexture}.
Arguments GenKey {DstTexture}.
Arguments onIsEqual {DstTexture}.
Arguments onGetOptimizations {DstTexture}.
Arguments onXferBarrier {DstTexture}.
Arguments onCreateXferProcessor {DstTexture}.
Arguments CustomXP_hw {DstTexture}.
Arguments CustomXP_dst {DstTexture}.
Arguments createGLSLInstance_asserts {DstTexture}.
Arguments onGetBlendInfo {DstTexture}.

(** The enumerators as SkBlendMode.h and GrBlend.h declare them:
    [kScreen = kLastCoeffMode = 14], [kOverlay = 15],
    [kMultiply = kLastSeparableMode = 24], [kLuminosity = kLastMode = 28];
    [kOverlay_GrBlendEquation = 4] follows the three basic equations and
    [kScreen_GrBlendEquation], and [kGrBlendEquationCnt = 18]. *)
Module Numbering.
Definition kLastCoeffMode : Z := 14.
Definition kOverlay : Z := 15.
Definition kLastSeparableMode : Z := 24.
Definition kLastMode : Z := 28.
Definition kOverlay_GrBlendEquation : Z := 4.

(** The factory for a mode under this numbering. *)
Definition factory (mode : Z) : CustomXPFactory :=
  CustomXPFactory_new kOverlay kOverlay_GrBlendEquation mode.

(** A backend with advanced blend equations that answers
    [canUseAdvancedBlendEquation] with [answer] for every equation. *)
Definition caps_answering (answer : bool) : GrCaps :=
  {| advancedBlendEquationSupport := true;
     advancedCoherentBlendEquationSupport := false;
     canUseAdvancedBlendEquation := fun _ => answer |}.

(** A draw with single-channel coverage and no PLS destination read. *)
Definition plain_analysis : GrPipelineAnalysis :=
  let poi := {| allStagesMultiplyInput := false;
                isFourChannelOutput := false;
                isSolidWhite := false |} in
  {| fColorPOI := poi; fCoveragePOI := poi; fUsesPLSDstRead := false |}.
End Numbering.

End GrCustomXfermode.

(* ====================================================================== *)
(** ** GrMSAAPathRenderer.cpp                                              *)
(* ====================================================================== *)

Module GrMSAAPathRenderer.

(** *** Machine arithmetic *)

Definition INT_MIN : Z := -2147483648.
Definition INT_MAX : Z := 2147483647.
Definition SK_MaxU16 : Z := 65535.

(** A computation whose C++ behaviour may be undefined (signed overflow, a
    read past an array, a null dereference) returns [None] there. *)
Notation "x <- e ;; k" := (match e with Some x => k | None => None end)
  (at level 61, e at next level, right associativity).
Notation "' pat <- e ;; k" := (match e with Some pat => k | None => None end)
  (at level 61, pat pattern, e at next level, right associativity).

Definition int_of (z : Z) : option Z :=
  if (INT_MIN <=? z) && (z <=? INT_MAX) then Some z else None.
Definition int_add (a b : Z) : option Z := int_of (a + b).
Definition int_mul (a b : Z) : option Z := int_of (a * b).

(** The cast [(uint16_t) z]. *)
Definition uint16_t (z : Z) : Z := z mod 65536.

(** *** Data *)

(** A float is carried as the rational it denotes: the functions embedded
    here copy scalars and points, they never compute with them. *)
Definition SkScalar : Type := Q.
Record SkPoint := SkPoint_Make { fX : SkScalar; fY : SkScalar }.
Definition SkColor : Type := Z.

Definition kTolerance : SkScalar := (1 # 2)%Q.

(** What [SkPath::Iter::next] hands out before [kDone_Verb]: the verb, the
    points it wrote to [pts], and the conic weight. *)
Inductive Verb :=
| kMove_Verb (p0 : SkPoint)
| kLine_Verb (p0 p1 : SkPoint)
| kQuad_Verb (p0 p1 p2 : SkPoint)
| kConic_Verb (p0 p1 p2 : SkPoint) (conicWeight : SkScalar)
| kCubic_Verb (p0 p1 p2 p3 : SkPoint)
| kClose_Verb.

(** [SkPath::FillType]; [FillType_other] stands for any value outside the
    four enumerators, so that the [default:] label has something to catch. *)
Inductive FillType :=
| kWinding_FillType
| kEvenOdd_FillType
| kInverseWinding_FillType
| kInverseEvenOdd_FillType
| FillType_other (raw : Z).

(** [SkAutoConicToQuads] after [computeQuads]: the array it returns and
    [countQuads()]. *)
Record SkAutoConicToQuads := {
  fPts : list SkPoint;
  fQuadCount : Z
}.

(** The classes and helpers the file calls but does not define. *)
Class Skia := {
  SkMatrix : Type;
  SkRect : Type;
  SkPath : Type;
  GrPipeline : Type;
  GrCaps : Type;
  GrUserStencilSettings : Type;
  (* SkPath: the verbs of [SkPath::Iter iter(path, true)], in order *)
  Iter : SkPath -> list Verb;
  getFillType : SkPath -> FillType;
  getBounds : SkPath -> SkRect;
  (* SkAutoConicToQuads::computeQuads(pts, weight, tol) *)
  computeQuads : SkPoint -> SkPoint -> SkPoint -> SkScalar -> SkScalar -> SkAutoConicToQuads;
  (* GrPathUtils::convertCubicToQuads(pts, tol, &quadPts): the filled array *)
  convertCubicToQuads : SkPoint -> SkPoint -> SkPoint -> SkPoint -> SkScalar -> list SkPoint;
  (* SkMatrix *)
  SkMatrix_I : SkMatrix;
  hasPerspective : SkMatrix -> bool;
  invert : SkMatrix -> option SkMatrix;
  mapRect : SkMatrix -> SkRect -> SkRect;
  cheapEqualTo : SkMatrix -> SkMatrix -> bool;
  (* GrOp::joinBounds on the rectangles, GrPipeline::CanCombine *)
  joinBounds : SkRect -> SkRect -> SkRect;
  CanCombine : GrPipeline -> SkRect -> GrPipeline -> SkRect -> GrCaps -> bool;
  (* GrPathRenderer::GetPathDevBounds(path, width, height, viewMatrix, &r) *)
  GetPathDevBounds : SkPath -> Z -> Z -> SkMatrix -> SkRect;
  (* GrPathStencilSettings.h *)
  gDirectToStencil : GrUserStencilSettings;
  gEOStencilPass : GrUserStencilSettings;
  gEOColorPass : GrUserStencilSettings;
  gInvEOColorPass : GrUserStencilSettings;
  gWindStencilSeparateWithWrap : GrUserStencilSettings;
  gWindColorPass : GrUserStencilSettings;
  gInvWindColorPass : GrUserStencilSettings
}.

(** What the two curve converters promise: a conic becomes [fQuadCount >= 0]
    quads sharing end points ([2 * fQuadCount + 1] points), a cubic becomes
    whole quads of three points each. *)
Class Converters (S : Skia) : Prop := {
  countQuads_nonneg : forall p0 p1 p2 w tol,
    0 <= fQuadCount (computeQuads p0 p1 p2 w tol);
  computeQuads_points : forall p0 p1 p2 w tol,
    Z.of_nat (length (fPts (computeQuads p0 p1 p2 w tol)))
    = 2 * fQuadCount (computeQuads p0 p1 p2 w tol) + 1;
  convertCubicToQuads_triples : forall p0 p1 p2 p3 tol,
    (length (convertCubicToQuads p0 p1 p2 p3 tol) mod 3 = 0)%nat
}.

(** [GrShape], as far as the file asks it. *)
Record GrShape {S : Skia} := {
  inverseFilled : bool;
  knownToBeConvex : bool;
  asPath : SkPath
}.

(** [MSAALineVertices] / [MSAAQuadVertices]: [vertices] is the written part
    [vertices, nextVertex) of the buffer, [indices] the written part
    [indices, nextIndex).  The [SK_DEBUG]-only [verticesEnd] is left out. *)
Record LineVertex := { lv_fPosition : SkPoint; lv_fColor : SkColor }.
Record QuadVertex := { qv_fPosition : SkPoint; qv_fUV : SkPoint; qv_fColor : SkColor }.

Record MSAALineVertices := {
  l_vertices : list LineVertex;
  l_indices : list Z
}.

Record MSAAQuadVertices := {
  q_vertices : list QuadVertex;
  q_indices : list Z
}.

Definition l_nextVertex (lines : MSAALineVertices) : Z :=
  Z.of_nat (length (l_vertices lines)).
Definition q_nextVertex (quads : MSAAQuadVertices) : Z :=
  Z.of_nat (length (q_vertices quads)).

Definition l_push (lines : MSAALineVertices) (v : LineVertex) : MSAALineVertices :=
  {| l_vertices := l_vertices lines ++ [v]; l_indices := l_indices lines |}.

(** [append_contour_edge_indices] *)
Definition append_contour_edge_indices (fanCenterIdx edgeV0Idx : Z)
    (lines : MSAALineVertices) : MSAALineVertices :=
  {| l_vertices := l_vertices lines;
     l_indices := l_indices lines
                  ++ [uint16_t fanCenterIdx; uint16_t edgeV0Idx; uint16_t (edgeV0Idx + 1)] |}.

(** [add_quad]; [pts] is the array from the pointer on. *)
Definition add_quad (lines : MSAALineVertices) (quads : MSAAQuadVertices)
    (pts : list SkPoint) (color : SkColor) (indexed : bool)
    (subpathLineIdxStart : Z) : option (MSAALineVertices * MSAAQuadVertices) :=
  pts0 <- nth_error pts 0 ;;
  pts1 <- nth_error pts 1 ;;
  pts2 <- nth_error pts 2 ;;
  let lines :=
    if indexed then
      let prevIdx := uint16_t (l_nextVertex lines - 1) in
      if prevIdx >? subpathLineIdxStart
      then append_contour_edge_indices subpathLineIdxStart prevIdx lines
      else lines
    else lines in
  let lines := l_push lines {| lv_fPosition := pts2; lv_fColor := color |} in
  let quads :=
    {| q_vertices := q_vertices quads
         ++ [ {| qv_fPosition := pts0; qv_fUV := SkPoint_Make 0%Q 0%Q; qv_fColor := color |};
              {| qv_fPosition := pts1; qv_fUV := SkPoint_Make (1 # 2)%Q 0%Q; qv_fColor := color |};
              {| qv_fPosition := pts2; qv_fUV := SkPoint_Make 1%Q 1%Q; qv_fColor := color |} ];
       q_indices := q_indices quads |} in
  let quads :=
    if indexed then
      let offset := uint16_t (uint16_t (q_nextVertex quads) - 3) in
      {| q_vertices := q_vertices quads;
         q_indices := q_indices quads
                      ++ [offset; uint16_t (offset + 1); uint16_t (offset + 2)] |}
    else quads in
  Some (lines, quads).

(** [add_quad] at [pts + o] for each offset [o] in turn: the bodies of the
    two [for] loops of [createGeom]. *)
Fixpoint add_quads_at (offsets : list nat) (pts : list SkPoint) (color : SkColor)
    (indexed : bool) (subpathIdxStart : Z)
    (lq : MSAALineVertices * MSAAQuadVertices)
    : option (MSAALineVertices * MSAAQuadVertices) :=
  match offsets with
  | [] => Some lq
  | o :: rest =>
      lq' <- add_quad (fst lq) (snd lq) (skipn o pts) color indexed subpathIdxStart ;;
      add_quads_at rest pts color indexed subpathIdxStart lq'
  end.

(** [for (int i = 0; i < n; ++i)] visits [quadPts + i * 2]. *)
Definition conic_offsets (n : Z) : list nat :=
  map (fun i => (i * 2)%nat) (seq 0 (Z.to_nat n)).

(** [for (int i = 0; i < count; i += 3)] visits [&quadPts[i]]. *)
Definition cubic_offsets (count : nat) : list nat :=
  map (fun k => (k * 3)%nat) (seq 0 ((count + 2) / 3)).

Section Renderer.
Context {S : Skia}.

(** [single_pass_shape] *)
Definition single_pass_shape (shape : GrShape) : bool :=
  if negb (inverseFilled shape) then knownToBeConvex shape
  else false.

Inductive StencilSupport :=
| kNoRestriction_StencilSupport
| kStencilOnly_StencilSupport.

(** [GrMSAAPathRenderer::onGetStencilSupport] *)
Definition onGetStencilSupport (shape : GrShape) : StencilSupport :=
  if single_pass_shape shape then kNoRestriction_StencilSupport
  else kStencilOnly_StencilSupport.

(** *** MSAAPathOp::ComputeWorstCasePointCount *)

(** The locals of the loop: [first], [*subpaths], [linePointCount],
    [quadPointCount]. *)
Record WorstCase := mkWorstCase {
  wc_first : bool;
  wc_subpaths : Z;
  wc_linePointCount : Z;
  wc_quadPointCount : Z
}.

(** The statements under [case SkPath::kQuad_Verb:], which the conic case
    runs as well, having no [break]. *)
Definition worst_case_quad (linePointCount quadPointCount : Z) : option (Z * Z) :=
  l <- int_add linePointCount 1 ;;
  q <- int_add quadPointCount 3 ;;
  Some (l, q).

(** One turn of the [while] loop: the [switch], then [first = false]. *)
Definition worst_case_verb (st : WorstCase) (verb : Verb) : option WorstCase :=
  let first := wc_first st in
  let subpaths := wc_subpaths st in
  let linePointCount := wc_linePointCount st in
  let quadPointCount := wc_quadPointCount st in
  match verb with
  | kLine_Verb _ _ =>
      l <- int_add linePointCount 1 ;;
      Some (mkWorstCase false subpaths l quadPointCount)
  | kConic_Verb p0 p1 p2 weight =>
      let converter := computeQuads p0 p1 p2 weight kTolerance in
      let quadPts := fQuadCount converter in
      l <- int_add linePointCount quadPts ;;
      t <- int_mul 3 quadPts ;;
      q <- int_add quadPointCount t ;;
      ' (l', q') <- worst_case_quad l q ;;
      Some (mkWorstCase false subpaths l' q')
  | kQuad_Verb _ _ _ =>
      ' (l, q) <- worst_case_quad linePointCount quadPointCount ;;
      Some (mkWorstCase false subpaths l q)
  | kCubic_Verb p0 p1 p2 p3 =>
      let quadPts := convertCubicToQuads p0 p1 p2 p3 kTolerance in
      count <- int_of (Z.of_nat (length quadPts)) ;;
      l <- int_add linePointCount (Z.quot count 3) ;;
      q <- int_add quadPointCount count ;;
      Some (mkWorstCase false subpaths l q)
  | kMove_Verb _ =>
      l <- int_add linePointCount 1 ;;
      s <- (if negb first then int_add subpaths 1 else Some subpaths) ;;
      Some (mkWorstCase false s l quadPointCount)
  | kClose_Verb =>
      Some (mkWorstCase false subpaths linePointCount quadPointCount)
  end.

Fixpoint worst_case_loop (verbs : list Verb) (st : WorstCase) : option WorstCase :=
  match verbs with
  | [] => Some st
  | verb :: rest =>
      st' <- worst_case_verb st verb ;;
      worst_case_loop rest st'
  end.

(** Returns [( *subpaths, *outLinePointCount, *outQuadPointCount )]. *)
Definition ComputeWorstCasePointCount (path : SkPath) : option (Z * Z * Z) :=
  st <- worst_case_loop (Iter path) (mkWorstCase true 1 0 0) ;;
  Some (wc_subpaths st, wc_linePointCount st, wc_quadPointCount st).

(** *** MSAAPathOp::createGeom *)

(** The buffers and the locals [subpathIdxStart] and [first]. *)
Record Geom := mkGeom {
  g_lines : MSAALineVertices;
  g_quads : MSAAQuadVertices;
  g_subpathIdxStart : Z;
  g_first : bool
}.

(** One turn of the [while (!done)] loop on a verb other than [kDone_Verb]. *)
Definition createGeom_verb (color : SkColor) (isIndexed : bool)
    (st : Geom) (verb : Verb) : option Geom :=
  let lines := g_lines st in
  let quads := g_quads st in
  let subpathIdxStart := g_subpathIdxStart st in
  match verb with
  | kMove_Verb p0 =>
      let subpathIdxStart :=
        if negb (g_first st) then uint16_t (l_nextVertex lines) else subpathIdxStart in
      Some (mkGeom (l_push lines {| lv_fPosition := p0; lv_fColor := color |})
                   quads subpathIdxStart false)
  | kLine_Verb _ p1 =>
      let lines :=
        if isIndexed then
          let prevIdx := uint16_t (l_nextVertex lines - 1) in
          if prevIdx >? subpathIdxStart
          then append_contour_edge_indices subpathIdxStart prevIdx lines
          else lines
        else lines in
      Some (mkGeom (l_push lines {| lv_fPosition := p1; lv_fColor := color |})
                   quads subpathIdxStart false)
  | kConic_Verb p0 p1 p2 weight =>
      let converter := computeQuads p0 p1 p2 weight kTolerance in
      ' (lines, quads) <- add_quads_at (conic_offsets (fQuadCount converter))
                            (fPts converter) color isIndexed subpathIdxStart
                            (lines, quads) ;;
      Some (mkGeom lines quads subpathIdxStart false)
  | kQuad_Verb p0 p1 p2 =>
      ' (lines, quads) <- add_quad lines quads [p0; p1; p2] color isIndexed
                            subpathIdxStart ;;
      Some (mkGeom lines quads subpathIdxStart false)
  | kCubic_Verb p0 p1 p2 p3 =>
      let quadPts := convertCubicToQuads p0 p1 p2 p3 kTolerance in
      let count := length quadPts in
      ' (lines, quads) <- add_quads_at (cubic_offsets count) quadPts color isIndexed
                            subpathIdxStart (lines, quads) ;;
      Some (mkGeom lines quads subpathIdxStart false)
  | kClose_Verb =>
      Some (mkGeom lines quads subpathIdxStart false)
  end.

Fixpoint createGeom_loop (color : SkColor) (isIndexed : bool)
    (verbs : list Verb) (st : Geom) : option Geom :=
  match verbs with
  | [] => Some st
  | verb :: rest =>
      st' <- createGeom_verb color isIndexed st verb ;;
      createGeom_loop color isIndexed rest st'
  end.

(** [createGeom] returns [true] whenever it returns; the result here is
    the two buffers it has filled. *)
Definition createGeom (lines : MSAALineVertices) (quads : MSAAQuadVertices)
    (path : SkPath) (m : SkMatrix) (color : SkColor) (isIndexed : bool)
    : option (MSAALineVertices * MSAAQuadVertices) :=
  let subpathIdxStart := uint16_t (l_nextVertex lines) in
  st <- createGeom_loop color isIndexed (Iter path)
          (mkGeom lines quads subpathIdxStart true) ;;
  Some (g_lines st, g_quads st).

(** *** Reference counts

    Counted off [createGeom], for comparison with what the code computes:
    the number of [add_quad] calls a verb leads to, and the vertices it
    appends to each buffer. *)
Definition verb_quads (verb : Verb) : Z :=
  match verb with
  | kQuad_Verb _ _ _ => 1
  | kConic_Verb p0 p1 p2 weight => fQuadCount (computeQuads p0 p1 p2 weight kTolerance)
  | kCubic_Verb p0 p1 p2 p3 =>
      Z.quot (Z.of_nat (length (convertCubicToQuads p0 p1 p2 p3 kTolerance))) 3
  | _ => 0
  end.

Definition verb_line_vertices (verb : Verb) : Z :=
  match verb with
  | kMove_Verb _ | kLine_Verb _ _ => 1
  | kClose_Verb => 0
  | _ => verb_quads verb
  end.

Definition verb_quad_vertices (verb : Verb) : Z := 3 * verb_quads verb.

Definition verb_is_conic (verb : Verb) : Z :=
  match verb with
  | kConic_Verb _ _ _ _ => 1
  | _ => 0
  end.

Definition verb_is_move (verb : Verb) : Z :=
  match verb with
  | kMove_Verb _ => 1
  | _ => 0
  end.

Fixpoint total (f : Verb -> Z) (verbs : list Verb) : Z :=
  match verbs with
  | [] => 0
  | verb :: rest => f verb + total f rest
  end.

(** *** MSAAPathOp *)

Definition kMaxIndexedVertexCnt : Z := Z.quot SK_MaxU16 3.

Record PathInfo := { fColor : SkColor; fPath : SkPath }.

(** The fields of the op, with [bounds] and [pipeline] of its [GrOp] /
    [GrDrawOp] bases; the pipeline is absent until the op is recorded. *)
Record MSAAPathOp := {
  fPaths : list PathInfo;
  fViewMatrix : SkMatrix;
  fMaxLineVertices : Z;
  fMaxQuadVertices : Z;
  fIsIndexed : bool;
  bounds : SkRect;
  pipeline : option GrPipeline
}.

(** [MSAAPathOp::Make]; the inner [None] is [nullptr]. *)
Definition Make (color : SkColor) (path : SkPath) (viewMatrix : SkMatrix)
    (devBounds : SkRect) : option (option MSAAPathOp) :=
  ' (contourCount, maxLineVertices, maxQuadVertices) <- ComputeWorstCasePointCount path ;;
  let isIndexed := contourCount >? 1 in
  if isIndexed &&
     ((maxLineVertices >? kMaxIndexedVertexCnt) || (maxQuadVertices >? kMaxIndexedVertexCnt))
  then Some None
  else Some (Some {| fPaths := [ {| fColor := color; fPath := path |} ];
                     fViewMatrix := viewMatrix;
                     fMaxLineVertices := maxLineVertices;
                     fMaxQuadVertices := maxQuadVertices;
                     fIsIndexed := isIndexed;
                     bounds := devBounds;
                     pipeline := None |}).

(** [MSAAPathOp::onCombineIfPossible]: the returned flag and [this] as the
    call leaves it. *)
Definition onCombineIfPossible (this that : MSAAPathOp) (caps : GrCaps)
    : option (bool * MSAAPathOp) :=
  this_pipeline <- pipeline this ;;
  that_pipeline <- pipeline that ;;
  if negb (CanCombine this_pipeline (bounds this) that_pipeline (bounds that) caps)
  then Some (false, this)
  else if negb (cheapEqualTo (fViewMatrix this) (fViewMatrix that))
  then Some (false, this)
  else
    lineSum <- int_add (fMaxLineVertices this) (fMaxLineVertices that) ;;
    if lineSum >? kMaxIndexedVertexCnt then Some (false, this)
    else
      quadSum <- int_add (fMaxQuadVertices this) (fMaxQuadVertices that) ;;
      if quadSum >? kMaxIndexedVertexCnt then Some (false, this)
      else
        Some (true,
              {| fPaths := fPaths this ++ fPaths that;
                 fViewMatrix := fViewMatrix this;
                 fMaxLineVertices := lineSum;
                 fMaxQuadVertices := quadSum;
                 fIsIndexed := true;
                 bounds := joinBounds (bounds this) (bounds that);
                 pipeline := pipeline this |}).

(** *** MSAAPathOp::onPrepareDraws *)

(** The buffer provider: whether [makeVertexSpace(stride, count, ..)] and
    [makeIndexSpace(count, ..)] return storage or null. *)
Record Target := {
  makeVertexSpace : Z -> Z -> bool;
  makeIndexSpace : Z -> bool
}.

Definition lineVertexStride : Z := 12.
Definition quadVertexStride : Z := 20.

Inductive GrPrimitiveType := kTriangles_GrPrimitiveType | kTriangleFan_GrPrimitiveType.

Inductive GrMesh :=
| GrMesh_init (primitiveType : GrPrimitiveType) (vertexCount : Z)
| GrMesh_initIndexed (primitiveType : GrPrimitiveType) (vertexCount indexCount : Z).

(** The two kinds of [target->draw(gp, mesh)]: the default geometry
    processor on the line buffer, [MSAAQuadProcessor] on the quad buffer. *)
Inductive TargetDraw :=
| draw_lines (mesh : GrMesh) (lines : MSAALineVertices)
| draw_quads (mesh : GrMesh) (quads : MSAAQuadVertices).

(** The [for] loop over [fPaths]. *)
Fixpoint createGeom_paths (paths : list PathInfo) (m : SkMatrix) (isIndexed : bool)
    (lq : MSAALineVertices * MSAAQuadVertices)
    : option (MSAALineVertices * MSAAQuadVertices) :=
  match paths with
  | [] => Some lq
  | pathInfo :: rest =>
      lq' <- createGeom (fst lq) (snd lq) (fPath pathInfo) m (fColor pathInfo) isIndexed ;;
      createGeom_paths rest m isIndexed lq'
  end.

(** The draws issued on [target], in order.  The [SkASSERT]s compile to
    nothing in a release build; what they assert is stated as theorems. *)
Definition onPrepareDraws (this : MSAAPathOp) (target : Target) : option (list TargetDraw) :=
  if fMaxLineVertices this =? 0 then Some []
  else
    let primitiveType :=
      if fIsIndexed this then kTriangles_GrPrimitiveType else kTriangleFan_GrPrimitiveType in
    if negb (makeVertexSpace target lineVertexStride (fMaxLineVertices this)) then Some []
    else if fIsIndexed this && negb (makeIndexSpace target (3 * fMaxLineVertices this))
    then Some []
    else
      ' (lines, quads) <- createGeom_paths (fPaths this) (fViewMatrix this) (fIsIndexed this)
                            ({| l_vertices := []; l_indices := [] |},
                             {| q_vertices := []; q_indices := [] |}) ;;
      let lineVertexOffset := l_nextVertex lines in
      let lineIndexOffset := Z.of_nat (length (l_indices lines)) in
      let quadVertexOffset := q_nextVertex quads in
      let quadIndexOffset := Z.of_nat (length (q_indices quads)) in
      let lineDraws :=
        if lineVertexOffset =? 0 then []
        else if fIsIndexed this
        then [draw_lines (GrMesh_initIndexed primitiveType lineVertexOffset lineIndexOffset) lines]
        else [draw_lines (GrMesh_init primitiveType lineVertexOffset) lines] in
      if quadVertexOffset =? 0 then Some lineDraws
      else
        (* the two copies go into storage that is not checked for null *)
        if negb (makeVertexSpace target quadVertexStride quadVertexOffset) then None
        else if fIsIndexed this then
          if negb (makeIndexSpace target quadIndexOffset) then None
          else Some (lineDraws ++
                     [draw_quads (GrMesh_initIndexed kTriangles_GrPrimitiveType
                                    quadVertexOffset quadIndexOffset) quads])
        else Some (lineDraws ++
                   [draw_quads (GrMesh_init kTriangles_GrPrimitiveType quadVertexOffset) quads]).

(** *** GrMSAAPathRenderer::internalDrawPath *)

(** The locals [passCount], [passes], [reverse], [lastPassIsBounds] once
    the pass plan is made. *)
Record PassPlan := {
  passCount : Z;
  passes : list GrUserStencilSettings;
  reverse : bool;
  lastPassIsBounds : bool
}.

(** [UnknownFill] is the [default:] label:
    [SkDEBUGFAIL("Unknown path fFill!"); return false;]. *)
Inductive Planned :=
| Plan (plan : PassPlan)
| UnknownFill.

Definition kMaxNumPasses : Z := 2.

(** The first half of [internalDrawPath], up to the computation of
    [devBounds]. *)
Definition internalDrawPath_plan (userStencilSettings : GrUserStencilSettings)
    (shape : GrShape) (stencilOnly : bool) : Planned :=
  let path := asPath shape in
  if single_pass_shape shape then
    Plan {| passCount := 1;
            passes := [if stencilOnly then gDirectToStencil else userStencilSettings];
            reverse := false;
            lastPassIsBounds := false |}
  else
    let evenOdd (reverse : bool) :=
      if stencilOnly then
        Plan {| passCount := 1; passes := [gEOStencilPass];
                reverse := reverse; lastPassIsBounds := false |}
      else
        Plan {| passCount := 2;
                passes := [gEOStencilPass; if reverse then gInvEOColorPass else gEOColorPass];
                reverse := reverse; lastPassIsBounds := true |} in
    let winding (reverse : bool) :=
      if stencilOnly then
        Plan {| passCount := 1; passes := [gWindStencilSeparateWithWrap];
                reverse := reverse; lastPassIsBounds := false |}
      else
        Plan {| passCount := 2;
                passes := [gWindStencilSeparateWithWrap;
                           if reverse then gInvWindColorPass else gWindColorPass];
                reverse := reverse; lastPassIsBounds := true |} in
    match getFillType path with
    | kInverseEvenOdd_FillType => evenOdd true
    | kEvenOdd_FillType => evenOdd false
    | kInverseWinding_FillType => winding true
    | kWinding_FillType => winding false
    | FillType_other _ => UnknownFill
    end.

(** The ops handed to [renderTargetContext->addDrawOp]. *)
Inductive GrDrawOp :=
| NonAAFillRectOp (color : SkColor) (viewM : SkMatrix) (rect : SkRect) (localMatrix : SkMatrix)
| PathOp (op : MSAAPathOp).

(** One [addDrawOp]: the op and what the pass sets on its pipeline builder
    (paint, AA type and clip are the caller's, the same for every pass). *)
Record AddedDrawOp := {
  userStencil : GrUserStencilSettings;
  disableColorXPFactory : bool;
  drawOp : GrDrawOp
}.

(** The body of [for (int p = 0; p < passCount; ++p)] for one [p]; the
    inner [None] is [return false]. *)
Definition draw_pass (color : SkColor) (path : SkPath) (viewMatrix : SkMatrix)
    (devBounds : SkRect) (plan : PassPlan) (p : Z) : option (option AddedDrawOp) :=
  stencil <- nth_error (passes plan) (Z.to_nat p) ;;
  if lastPassIsBounds plan && (p =? passCount plan - 1) then
    let rectDraw (viewM : SkMatrix) (bounds : SkRect) (localMatrix : SkMatrix) :=
      Some (Some {| userStencil := stencil;
                    disableColorXPFactory := false;
                    drawOp := NonAAFillRectOp color viewM bounds localMatrix |}) in
    let viewM :=
      if reverse plan && hasPerspective viewMatrix then SkMatrix_I else viewMatrix in
    if reverse plan then
      match (if negb (hasPerspective viewMatrix) then invert viewMatrix else None) with
      | Some vmi => rectDraw viewM (mapRect vmi devBounds) SkMatrix_I
      | None =>
          match invert viewMatrix with
          | None => Some None
          | Some localMatrix => rectDraw viewM devBounds localMatrix
          end
      end
    else rectDraw viewM (getBounds path) SkMatrix_I
  else
    made <- Make color path viewMatrix devBounds ;;
    match made with
    | None => Some None
    | Some op =>
        Some (Some {| userStencil := stencil;
                      disableColorXPFactory := passCount plan >? 1;
                      drawOp := PathOp op |})
    end.

(** The loop, with the ops added so far. *)
Fixpoint draw_passes (color : SkColor) (path : SkPath) (viewMatrix : SkMatrix)
    (devBounds : SkRect) (plan : PassPlan) (ps : list Z) (added : list AddedDrawOp)
    : option (bool * list AddedDrawOp) :=
  match ps with
  | [] => Some (true, added)
  | p :: rest =>
      drawn <- draw_pass color path viewMatrix devBounds plan p ;;
      match drawn with
      | None => Some (false, added)
      | Some d => draw_passes color path viewMatrix devBounds plan rest (added ++ [d])
      end
  end.

(** [internalDrawPath]: the returned flag and the ops added to the render
    target context ([width] x [height]), [color] being [paint.getColor()]. *)
Definition internalDrawPath (width height : Z) (color : SkColor)
    (userStencilSettings : GrUserStencilSettings) (viewMatrix : SkMatrix)
    (shape : GrShape) (stencilOnly : bool) : option (bool * list AddedDrawOp) :=
  let path := asPath shape in
  match internalDrawPath_plan userStencilSettings shape stencilOnly with
  | UnknownFill => Some (false, [])
  | Plan plan =>
      let devBounds := GetPathDevBounds path width height viewMatrix in
      draw_passes color path viewMatrix devBounds plan
        (map Z.of_nat (seq 0 (Z.to_nat (passCount plan)))) []
  end.

(** *** Orders of merging

    A batch, or the batch that results when the outcome of one order
    absorbs the outcome of another.  [merge_in_order] performs the merges;
    its inner [None] says that some [onCombineIfPossible] returned false. *)
Inductive MergeOrder :=
| Single (op : MSAAPathOp)
| Absorb (absorbing absorbed : MergeOrder).

Fixpoint batches (order : MergeOrder) : list MSAAPathOp :=
  match order with
  | Single op => [op]
  | Absorb absorbing absorbed => batches absorbing ++ batches absorbed
  end.

Fixpoint merge_in_order (caps : GrCaps) (order : MergeOrder) : option (option MSAAPathOp) :=
  match order with
  | Single op => Some (Some op)
  | Absorb absorbing absorbed =>
      this <- merge_in_order caps absorbing ;;
      that <- merge_in_order caps absorbed ;;
      match this, that with
      | Some this, Some that =>
          ' (merged, this') <- onCombineIfPossible this that caps ;;
          Some (if merged : bool then Some this' else None)
      | _, _ => Some None
      end
  end.

Fixpoint sum_of (f : MSAAPathOp -> Z) (ops : list MSAAPathOp) : Z :=
  match ops with
  | [] => 0
  | op :: rest => f op + sum_of f rest
  end.

(** *** The rest of the renderer *)

(** [MSAAQuadProcessor::GLSLProcessor::GenKey]; [isIdentity] is
    [SkMatrix::isIdentity]. *)
Definition MSAAQuadProcessor_GenKey (isIdentity : SkMatrix -> bool) (viewMatrix : SkMatrix)
    : Z :=
  let key := 0 in
  let key := Z.lor key (if hasPerspective viewMatrix then 1 else 0) in
  let key := Z.lor key (if isIdentity viewMatrix then 2 else 0) in
  key.

Inductive GrAAType := kNone_GrAAType | kCoverage_GrAAType | kMSAA_GrAAType
                    | kMixedSamples_GrAAType.

(** [GrMSAAPathRenderer::onCanDrawPath]; [isSimpleFill] is
    [args.fShape->style().isSimpleFill()]. *)
Definition onCanDrawPath (isSimpleFill : bool) (fAAType : GrAAType) : bool :=
  isSimpleFill &&
  negb (match fAAType with kCoverage_GrAAType => true | _ => false end).

(** [GrMSAAPathRenderer::onDrawPath]; [applies] is
    [shape->style().applies()] and [applied] the shape [applyStyle] returns. *)
Definition onDrawPath (width height : Z) (color : SkColor)
    (fUserStencilSettings : GrUserStencilSettings) (fViewMatrix : SkMatrix)
    (fShape : GrShape) (applies : bool) (applied : GrShape)
    : option (bool * list AddedDrawOp) :=
  let shape := if applies then applied else fShape in
  internalDrawPath width height color fUserStencilSettings fViewMatrix shape false.


(** *** Notions the properties are stated with *)

(** A verb list as [SkPath::Iter] produces them: empty, or opening with a
    move verb. *)
Definition starts_with_move (verbs : list Verb) : bool :=
  match verbs with
  | [] => true
  | kMove_Verb _ :: _ => true
  | _ => false
  end.

(** Every index in the line index buffer names a vertex of the line
    vertex buffer. *)
Definition indices_in_range (lines : MSAALineVertices) : Prop :=
  Forall (fun i => 0 <= i < l_nextVertex lines) (l_indices lines).

(** The quad index buffer is 0, 1, 2, ... over the quad vertex buffer. *)
Definition quad_indices_sequential (quads : MSAAQuadVertices) : Prop :=
  q_indices quads = map Z.of_nat (seq 0 (length (q_vertices quads))).

(** The texture coordinates [add_quad] gives the three vertices of a quad. *)
Definition uv_triple : list SkPoint :=
  [SkPoint_Make 0%Q 0%Q; SkPoint_Make (1 # 2)%Q 0%Q; SkPoint_Make 1%Q 1%Q].

(** What filling leaves of the buffers it was handed: everything written
    before is still there, and after it come line vertices [lv], line
    indices [li], quad vertices [qv] and quad indices [qi].  The new vertices
    carry [color]; the new quad vertices come in triples with the texture
    coordinates of [uv_triple]; there are at most three line indices per new
    line vertex; and there is one quad index per new quad vertex when
    indexed, no new index at all when not. *)
Definition appended (color : SkColor) (isIndexed : bool)
    (before after : MSAALineVertices * MSAAQuadVertices) : Prop :=
  exists lv li qv qi (k : nat),
    l_vertices (fst after) = l_vertices (fst before) ++ lv
    /\ l_indices (fst after) = l_indices (fst before) ++ li
    /\ q_vertices (snd after) = q_vertices (snd before) ++ qv
    /\ q_indices (snd after) = q_indices (snd before) ++ qi
    /\ Forall (fun v => lv_fColor v = color) lv
    /\ Forall (fun v => qv_fColor v = color) qv
    /\ map qv_fUV qv = concat (repeat uv_triple k)
    /\ (length li <= 3 * length lv)%nat
    /\ (if isIndexed then length qi = length qv else li = [] /\ qi = []).

(** The reference count [f] summed over the paths of a batch. *)
Fixpoint paths_total (f : Verb -> Z) (paths : list PathInfo) : Z :=
  match paths with
  | [] => 0
  | pathInfo :: rest => total f (Iter (fPath pathInfo)) + paths_total f rest
  end.

(** The op with its pipeline set, as recording it leaves it. *)
Definition set_pipeline (op : MSAAPathOp) (p : GrPipeline) : MSAAPathOp :=
  {| fPaths := fPaths op;
     fViewMatrix := fViewMatrix op;
     fMaxLineVertices := fMaxLineVertices op;
     fMaxQuadVertices := fMaxQuadVertices op;
     fIsIndexed := fIsIndexed op;
     bounds := bounds op;
     pipeline := Some p |}.

(** The ops this file can bring about: made by [Make], recorded, and
    merged by [onCombineIfPossible]. *)
Inductive Built : MSAAPathOp -> Prop :=
| Built_Make color path viewMatrix devBounds op :
    Make color path viewMatrix devBounds = Some (Some op) -> Built op
| Built_recorded op p :
    Built op -> Built (set_pipeline op p)
| Built_merged this that caps this' :
    Built this -> Built that ->
    onCombineIfPossible this that caps = Some (true, this') -> Built this'.

(** What the two assertions at the end of the filling loop of
    [onPrepareDraws] ask of a draw, together with the validity of its
    indices. *)
Definition draw_within (this : MSAAPathOp) (draw : TargetDraw) : Prop :=
  match draw with
  | draw_lines mesh lines =>
      l_nextVertex lines <= fMaxLineVertices this
      /\ Z.of_nat (length (l_indices lines)) <= 3 * fMaxLineVertices this
      /\ indices_in_range lines
      /\ mesh = (if fIsIndexed this
                 then GrMesh_initIndexed kTriangles_GrPrimitiveType (l_nextVertex lines)
                        (Z.of_nat (length (l_indices lines)))
                 else GrMesh_init kTriangleFan_GrPrimitiveType (l_nextVertex lines))
  | draw_quads mesh quads =>
      q_nextVertex quads <= fMaxQuadVertices this
      /\ Z.of_nat (length (q_indices quads)) <= 3 * fMaxQuadVertices this
      /\ (fIsIndexed this = true -> quad_indices_sequential quads)
      /\ (fIsIndexed this = false -> q_indices quads = [])
  end.

End Renderer.

End GrMSAAPathRenderer.

(* ====================================================================== *)
(** ** The coverage identity of CustomXP::onGetOptimizations               *)
(* ====================================================================== *)

(** The comment in [CustomXP::onGetOptimizations] justifies
    [kCanTweakAlphaForCoverage_OptFlag] by an identity on exact (real)
    colours.  [Sca], [Dca] are RGB vectors, [B] takes and returns RGB
    vectors, so that the non-separable modes are covered as well. *)
Module CoverageTweak.

Local Open Scope R_scope.

Record RGB := { red : R; green : R; blue : R }.

Definition scale (k : R) (c : RGB) : RGB :=
  {| red := k * red c; green := k * green c; blue := k * blue c |}.

Definition over (c : RGB) (k : R) : RGB :=
  {| red := red c / k; green := green c / k; blue := blue c / k |}.

Definition mul (a b : RGB) : RGB :=
  {| red := red a * red b; green := green a * green b; blue := blue a * blue b |}.

Definition add (a b : RGB) : RGB :=
  {| red := red a + red b; green := green a + green b; blue := blue a + blue b |}.

(** A colour premultiplied by the alpha [a]: every channel in [[0, a]]. *)
Definition premultiplied (c : RGB) (a : R) : Prop :=
  0 <= red c <= a /\ 0 <= green c <= a /\ 0 <= blue c <= a.

Section Blend.

(** The mode-specific function [B(Sc, Dc)] on non-premultiplied colours. *)
Variable B : RGB -> RGB -> RGB.

(** [blend(Sca, Dca, Sa, Da)], by cases as the comment defines it. *)
Definition blend (Sca Dca : RGB) (Sa Da : R) : RGB :=
  if Req_dec_T Sa 0 then Dca
  else if Req_dec_T Da 0 then Sca
  else add (add (scale (Sa * Da) (B (over Sca Sa) (over Dca Da)))
                (scale (1 - Da) Sca))
           (scale (1 - Sa) Dca).

(** [Dca'' = f * blend(Sca, Dca, Sa, Da) + (1-f) * Dca] *)
Definition coverage_modulated (f : R) (Sca Dca : RGB) (Sa Da : R) : RGB :=
  add (scale f (blend Sca Dca Sa Da)) (scale (1 - f) Dca).

End Blend.

(** [blend(Sa, Da)] of the alpha channel. *)
Definition blend_alpha (Sa Da : R) : R := Sa * Da + Sa * (1 - Da) + Da * (1 - Sa).

(** A non-separable operator to try the identity on: every output channel
    is the luminosity-weighted grey of the source times the destination. *)
Definition B_grey (Sc Dc : RGB) : RGB :=
  let lum := (3 / 10) * red Sc + (59 / 100) * green Sc + (11 / 100) * blue Sc in
  scale lum Dc.

(** A half-transparent source over an opaque destination. *)
Definition src_example : RGB := {| red := 1 / 4; green := 1 / 8; blue := 0 |}.
Definition dst_example : RGB := {| red := 1 / 2; green := 1 / 2; blue := 1 / 4 |}.

End CoverageTweak.

(* ====================================================================== *)
(** ** A concrete instance of the collaborators                            *)
(* ====================================================================== *)

(** Diagonal view matrices [diag(a, b, c)] over rectangles with rational
    edges, a path given by its verbs, and converters that cut every conic
    and every cubic in two.  Used to run the renderer on inputs. *)
Module Example.

Import GrMSAAPathRenderer.

Record Matrix := { ma : Q; mb : Q; mc : Q }.
Record Rect := { fLeft : Q; fTop : Q; fRight : Q; fBottom : Q }.
Record Path := { verbs : list Verb; fillType : FillType; pathBounds : Rect }.

Definition isZero (q : Q) : bool := Qeq_bool q 0.

Definition Matrix_invert (m : Matrix) : option Matrix :=
  if isZero (ma m) || isZero (mb m) || isZero (mc m) then None
  else Some {| ma := Qred (/ ma m); mb := Qred (/ mb m); mc := Qred (/ mc m) |}.

Definition Matrix_mapRect (m : Matrix) (r : Rect) : Rect :=
  let x0 := Qred (ma m * fLeft r / mc m) in
  let x1 := Qred (ma m * fRight r / mc m) in
  let y0 := Qred (mb m * fTop r / mc m) in
  let y1 := Qred (mb m * fBottom r / mc m) in
  {| fLeft := Qmin x0 x1; fTop := Qmin y0 y1; fRight := Qmax x0 x1; fBottom := Qmax y0 y1 |}.

Definition Rect_join (r s : Rect) : Rect :=
  {| fLeft := Qmin (fLeft r) (fLeft s); fTop := Qmin (fTop r) (fTop s);
     fRight := Qmax (fRight r) (fRight s); fBottom := Qmax (fBottom r) (fBottom s) |}.

Definition isInverseFillType (ft : FillType) : bool :=
  match ft with
  | kInverseWinding_FillType | kInverseEvenOdd_FillType => true
  | _ => false
  end.

Definition skia : Skia := {|
  SkMatrix := Matrix;
  SkRect := Rect;
  SkPath := Path;
  GrPipeline := unit;
  GrCaps := unit;
  GrUserStencilSettings := string;
  Iter := verbs;
  getFillType := fillType;
  getBounds := pathBounds;
  computeQuads := fun p0 p1 p2 _ _ => {| fPts := [p0; p1; p1; p1; p2]; fQuadCount := 2 |};
  convertCubicToQuads := fun p0 p1 p2 p3 _ => [p0; p1; p2; p2; p2; p3];
  SkMatrix_I := {| ma := 1; mb := 1; mc := 1 |};
  hasPerspective := fun m => negb (Qeq_bool (mc m) 1);
  invert := Matrix_invert;
  mapRect := Matrix_mapRect;
  cheapEqualTo := fun m n =>
    Qeq_bool (ma m) (ma n) && Qeq_bool (mb m) (mb n) && Qeq_bool (mc m) (mc n);
  joinBounds := Rect_join;
  CanCombine := fun _ _ _ _ _ => true;
  GetPathDevBounds := fun path w h m =>
    if isInverseFillType (fillType path)
    then {| fLeft := 0; fTop := 0; fRight := inject_Z w; fBottom := inject_Z h |}
    else Matrix_mapRect m (pathBounds path);
  gDirectToStencil := "gDirectToStencil"%string;
  gEOStencilPass := "gEOStencilPass"%string;
  gEOColorPass := "gEOColorPass"%string;
  gInvEOColorPass := "gInvEOColorPass"%string;
  gWindStencilSeparateWithWrap := "gWindStencilSeparateWithWrap"%string;
  gWindColorPass := "gWindColorPass"%string;
  gInvWindColorPass := "gInvWindColorPass"%string
|}.

Definition pt (x y : Z) : SkPoint := SkPoint_Make (inject_Z x) (inject_Z y).

Definition rect (l t r b : Z) : Rect :=
  {| fLeft := inject_Z l; fTop := inject_Z t; fRight := inject_Z r; fBottom := inject_Z b |}.

(** The closed triangle (0,0) (4,0) (0,3) as the iterator walks it. *)
Definition triangle_verbs : list Verb :=
  [ kMove_Verb (pt 0 0);
    kLine_Verb (pt 0 0) (pt 4 0);
    kLine_Verb (pt 4 0) (pt 0 3);
    kLine_Verb (pt 0 3) (pt 0 0);
    kClose_Verb ].

Definition triangle (ft : FillType) : Path :=
  {| verbs := triangle_verbs; fillType := ft; pathBounds := rect 0 0 4 3 |}.

(** One contour with a line, a quad, a conic and a cubic. *)
Definition curvy : Path :=
  {| verbs := [ kMove_Verb (pt 0 0);
                kLine_Verb (pt 0 0) (pt 4 0);
                kQuad_Verb (pt 4 0) (pt 6 2) (pt 4 4);
                kConic_Verb (pt 4 4) (pt 2 6) (pt 0 4) (1 # 2);
                kCubic_Verb (pt 0 4) (pt (-1) 3) (pt (-1) 1) (pt 0 0);
                kClose_Verb ];
     fillType := kWinding_FillType;
     pathBounds := rect (-1) 0 6 6 |}.

Definition identity : Matrix := {| ma := 1; mb := 1; mc := 1 |}.
Definition doubling : Matrix := {| ma := 2; mb := 2; mc := 1 |}.
Definition singular : Matrix := {| ma := 0; mb := 1; mc := 1 |}.
Definition projective : Matrix := {| ma := 1; mb := 1; mc := 2 |}.

(** A recorded batch for [path] with the given worst-case counts. *)
Definition batch (path : Path) (maxLine maxQuad : Z) : MSAAPathOp (S := skia) :=
  @Build_MSAAPathOp skia [ @Build_PathInfo skia 7 path ] doubling maxLine maxQuad false
    (Matrix_mapRect doubling (pathBounds path)) (Some tt).

Definition batch_A : MSAAPathOp (S := skia) := batch (triangle kWinding_FillType) 4 0.
Definition batch_B : MSAAPathOp (S := skia) := batch curvy 8 18.
Definition batch_C : MSAAPathOp (S := skia) := batch (triangle kEvenOdd_FillType) 4 0.

(** The ops added to the render target context, over this instance. *)
Definition path_draw (stencil : string) (op : MSAAPathOp (S := skia))
    : AddedDrawOp (S := skia) :=
  @Build_AddedDrawOp skia stencil true (@PathOp skia op).

Definition rect_draw (stencil : string) (color : SkColor) (viewM : Matrix) (r : Rect)
    (localMatrix : Matrix) : AddedDrawOp (S := skia) :=
  @Build_AddedDrawOp skia stencil false (@NonAAFillRectOp skia color viewM r localMatrix).

(** The plan and the stencil-pass op of the inversely filled triangle. *)
Definition inverse_triangle_plan : PassPlan (S := skia) :=
  @Build_PassPlan skia 2
    ["gWindStencilSeparateWithWrap"%string; "gInvWindColorPass"%string] true true.

Definition inverse_triangle_op (viewMatrix : Matrix) : MSAAPathOp (S := skia) :=
  @Build_MSAAPathOp skia [ @Build_PathInfo skia 7 (triangle kInverseWinding_FillType) ]
    viewMatrix 4 0 false (rect 0 0 100 100) None.

(** The stencil-pass op of the triangle under [doubling]. *)
Definition triangle_op : MSAAPathOp (S := skia) :=
  @Build_MSAAPathOp skia [ @Build_PathInfo skia 7 (triangle kWinding_FillType) ]
    doubling 4 0 false (rect 0 0 8 6) None.

(** What the two merge orders of the three batches leave. *)
Definition merged_AB_C : MSAAPathOp (S := skia) :=
  @Build_MSAAPathOp skia (fPaths batch_A ++ fPaths batch_B ++ fPaths batch_C)
    doubling 16 18 true
    (Rect_join (Rect_join (bounds batch_A) (bounds batch_B)) (bounds batch_C)) (Some tt).

Definition merged_C_BA : MSAAPathOp (S := skia) :=
  @Build_MSAAPathOp skia (fPaths batch_C ++ fPaths batch_B ++ fPaths batch_A)
    doubling 16 18 true
    (Rect_join (bounds batch_C) (Rect_join (bounds batch_B) (bounds batch_A))) (Some tt).

Definition no_lines : MSAALineVertices := {| l_vertices := []; l_indices := [] |}.
Definition no_quads : MSAAQuadVertices := {| q_vertices := []; q_indices := [] |}.

(** Two contours, the first with [n] line verbs. *)
Definition two_contours (n : nat) : Path :=
  {| verbs := kMove_Verb (pt 0 0) :: repeat (kLine_Verb (pt 0 0) (pt 1 1)) n
              ++ [kMove_Verb (pt 5 5); kLine_Verb (pt 5 5) (pt 6 6)];
     fillType := kWinding_FillType;
     pathBounds := rect 0 0 6 6 |}.

(** A path with nothing but a close verb. *)
Definition empty_path : Path :=
  {| verbs := [kClose_Verb]; fillType := kWinding_FillType; pathBounds := rect 0 0 0 0 |}.

Definition shape_of (path : Path) (convex : bool) : GrShape (S := skia) :=
  @Build_GrShape skia (isInverseFillType (fillType path)) convex path.


(** One contour with a single quad. *)
Definition one_quad : Path :=
  {| verbs := [ kMove_Verb (pt 0 0); kQuad_Verb (pt 0 0) (pt 2 2) (pt 4 0); kClose_Verb ];
     fillType := kWinding_FillType;
     pathBounds := rect 0 0 4 2 |}.

(** A verb list that opens with a line verb. *)
Definition line_first : Path :=
  {| verbs := [ kLine_Verb (pt 0 0) (pt 1 1) ];
     fillType := kWinding_FillType;
     pathBounds := rect 0 0 1 1 |}.

Definition line_vertex (x y : Z) : LineVertex :=
  {| lv_fPosition := pt x y; lv_fColor := 7 |}.

(** The buffers indexed filling leaves for the triangle, for [one_quad] and
    for [line_first]. *)
Definition triangle_lines : MSAALineVertices :=
  {| l_vertices := [line_vertex 0 0; line_vertex 4 0; line_vertex 0 3; line_vertex 0 0];
     l_indices := [0; 1; 2; 0; 2; 3] |}.

Definition one_quad_lines : MSAALineVertices :=
  {| l_vertices := [line_vertex 0 0; line_vertex 4 0]; l_indices := [] |}.

Definition one_quad_quads : MSAAQuadVertices :=
  {| q_vertices :=
       [ {| qv_fPosition := pt 0 0; qv_fUV := SkPoint_Make 0%Q 0%Q; qv_fColor := 7 |};
         {| qv_fPosition := pt 2 2; qv_fUV := SkPoint_Make (1 # 2)%Q 0%Q; qv_fColor := 7 |};
         {| qv_fPosition := pt 4 0; qv_fUV := SkPoint_Make 1%Q 1%Q; qv_fColor := 7 |} ];
     q_indices := [0; 1; 2] |}.

Definition line_first_lines : MSAALineVertices :=
  {| l_vertices := [line_vertex 1 1]; l_indices := [0; 65535; 0] |}.

(** The op [Make] gives for two short contours, and the same op recorded. *)
Definition two_contours_op (pipeline : option unit) : MSAAPathOp (S := skia) :=
  @Build_MSAAPathOp skia [ @Build_PathInfo skia 7 (two_contours 1) ]
    identity 4 0 true (rect 0 0 6 6) pipeline.

(** A buffer provider that never fails. *)
Definition ready_target : Target :=
  {| makeVertexSpace := fun _ _ => true; makeIndexSpace := fun _ => true |}.

(** The one op of a single-pass draw. *)
Definition single_draw (stencil : string) (op : MSAAPathOp (S := skia))
    : AddedDrawOp (S := skia) :=
  @Build_AddedDrawOp skia stencil false (@PathOp skia op).



(** The triangle with a fill value outside the enumeration, as a shape
    known to be convex and as one that is not, and the op [Make] gives for
    it under [doubling]. *)
Definition unknown_fill_triangle : Path := triangle (FillType_other 7).

Definition unknown_fill_convex : GrShape (S := skia) := shape_of unknown_fill_triangle true.

Definition unknown_fill_concave : GrShape (S := skia) :=
  shape_of unknown_fill_triangle false.

Definition unknown_fill_op : MSAAPathOp (S := skia) :=
  @Build_MSAAPathOp skia [ @Build_PathInfo skia 7 unknown_fill_triangle ]
    doubling 4 0 false (rect 0 0 8 6) None.
End Example.

(* ====================================================================== *)
(** ** Properties: the blend compositor                                    *)
(* ====================================================================== *)

Module XfermodeProofs.

Import GrCustomXfermode.

Lemma IsSupportedMode_true_iff (kLastCoeffMode kLastMode mode : Z) :
  IsSupportedMode kLastCoeffMode kLastMode mode = true
  <-> kLastCoeffMode < mode <= kLastMode.
Proof.
  unfold IsSupportedMode.
  rewrite andb_true_iff, Z.gtb_lt, Z.leb_le. lia.
Qed.

(** C7, as amended.  [IsSupportedMode] answers true exactly on the modes
    strictly above [kLastCoeffMode] and at or below [kLastMode]; it answers
    false on every coefficient (Porter-Duff) mode; and it answers true on the
    separable modes that lie above [kLastCoeffMode] (overlay up to multiply),
    whenever the enumeration has [kLastSeparableMode <= kLastMode]. *)
Theorem IsSupportedMode_range
    (kLastCoeffMode kLastSeparableMode kLastMode mode : Z) :
  (IsSupportedMode kLastCoeffMode kLastMode mode = true
   <-> kLastCoeffMode < mode <= kLastMode)
  /\ (is_coeff_mode kLastCoeffMode mode = true
      -> IsSupportedMode kLastCoeffMode kLastMode mode = false)
  /\ (kLastSeparableMode <= kLastMode
      -> is_coeff_mode kLastCoeffMode mode = false
      -> is_separable_mode kLastSeparableMode mode = true
      -> IsSupportedMode kLastCoeffMode kLastMode mode = true).
Proof.
  split; [apply IsSupportedMode_true_iff|].
  unfold is_coeff_mode, is_separable_mode. split.
  - intros Hc. apply Z.leb_le in Hc.
    apply not_true_is_false. rewrite IsSupportedMode_true_iff. lia.
  - intros Hlast Hc Hs. apply Z.leb_gt in Hc. apply Z.leb_le in Hs.
    apply IsSupportedMode_true_iff. lia.
Qed.

(** C7 as stated fails: under the numbering of SkBlendMode.h, [kOverlay] is
    a separable mode ([kOverlay <= kLastSeparableMode]) and is supported. *)
Lemma IsSupportedMode_separable_counterexample :
  ~ (forall mode : Z,
       is_separable_mode Numbering.kLastSeparableMode mode = true
       -> IsSupportedMode Numbering.kLastCoeffMode Numbering.kLastMode mode = false).
Proof.
  intros H. specialize (H Numbering.kOverlay eq_refl). discriminate H.
Qed.

Lemma IsSupportedMode_range_witness :
  IsSupportedMode Numbering.kLastCoeffMode Numbering.kLastMode Numbering.kLastSeparableMode = true.
Proof.
  apply (IsSupportedMode_range Numbering.kLastCoeffMode Numbering.kLastSeparableMode
           Numbering.kLastMode Numbering.kLastSeparableMode); reflexivity || (vm_compute; discriminate).
Defined.

(** The range that [CustomXPFactory::TestCreate] draws its modes from,
    [kLastCoeffMode + 1 .. kLastSeparableMode], passes the constructor's
    assertion only because separable modes are supported. *)
Lemma TestCreate_modes_supported (mode : Z) :
  Numbering.kLastCoeffMode + 1 <= mode <= Numbering.kLastSeparableMode ->
  exists f, MakeXPFactory Numbering.kLastCoeffMode Numbering.kLastMode Numbering.kOverlay
              Numbering.kOverlay_GrBlendEquation mode = Some f
            /\ xpf_fMode f = mode.
Proof.
  intros H. unfold MakeXPFactory.
  assert (Hs : IsSupportedMode Numbering.kLastCoeffMode Numbering.kLastMode mode = true).
  { apply IsSupportedMode_true_iff. unfold Numbering.kLastCoeffMode, Numbering.kLastMode,
      Numbering.kLastSeparableMode in *. lia. }
  rewrite Hs. simpl. eexists. split; reflexivity.
Qed.

(** The static assertions of [hw_blend_equation] amount to this: the cast
    sends [kOverlay] to [kOverlay_GrBlendEquation] and preserves distances. *)
Lemma hw_blend_equation_shift (kOverlay kOverlay_GrBlendEquation mode : Z) :
  hw_blend_equation kOverlay kOverlay_GrBlendEquation mode
  = kOverlay_GrBlendEquation + (mode - kOverlay).
Proof. unfold hw_blend_equation, kOffset. lia. Qed.

(** No mode from [kOverlay] on is sent to the [-1] that stands for "no
    hardware equation", the enumerators of [GrBlendEquation] being
    non-negative. *)
Lemma hw_blend_equation_advanced (kOverlay kOverlay_GrBlendEquation mode : Z) :
  0 <= kOverlay_GrBlendEquation -> kOverlay <= mode ->
  hw_blend_equation kOverlay kOverlay_GrBlendEquation mode <> -1.
Proof. intros. rewrite hw_blend_equation_shift. lia. Qed.

(** What [can_use_hw_blend_equation] computes. *)
Lemma can_use_hw_blend_equation_true_iff equation analysis caps :
  can_use_hw_blend_equation equation analysis caps = true
  <-> advancedBlendEquationSupport caps = true
      /\ fUsesPLSDstRead analysis = false
      /\ isFourChannelOutput (fCoveragePOI analysis) = false
      /\ canUseAdvancedBlendEquation caps equation = false.
Proof.
  unfold can_use_hw_blend_equation.
  destruct (advancedBlendEquationSupport caps), (fUsesPLSDstRead analysis),
    (isFourChannelOutput (fCoveragePOI analysis)),
    (canUseAdvancedBlendEquation caps equation); simpl; intuition discriminate.
Qed.

(** The processor created reads the destination exactly when it has no
    hardware equation, for every mode whose equation is not the [-1] that
    marks "none" (what [createGLSLInstance] asserts). *)
Lemma onCreateXferProcessor_dst_xor_hw {D} (f : CustomXPFactory) caps analysis mixed
    (dst : option D) :
  xpf_fHWBlendEquation f <> -1 ->
  let xp := onCreateXferProcessor f caps analysis mixed dst in
  willReadDstColor xp = negb (hasHWBlendEquation xp)
  /\ hasHWBlendEquation xp
     = can_use_hw_blend_equation (xpf_fHWBlendEquation f) analysis caps.
Proof.
  intros Hne. unfold onCreateXferProcessor.
  destruct (can_use_hw_blend_equation _ _ _);
    unfold hasHWBlendEquation, willReadDstColor, CustomXP_hw, CustomXP_dst;
    cbn [fHWBlendEquation xp_base base_willReadDstColor].
  - destruct (Z.eqb_spec (-1) (xpf_fHWBlendEquation f)); [congruence|].
    split; reflexivity.
  - split; reflexivity.
Qed.

(** C2.  For every mode in the advanced range, every capability object,
    every pipeline analysis (and whatever the mixed-samples flag and the
    destination texture), the processor that the factory of the mode creates
    has a hardware blend equation and does not read the destination if and
    only if the four conditions hold: the capabilities advertise advanced
    blend equations, the analysis uses no PLS destination read, the coverage
    output is not four-channel, and the backend does not refuse the equation
    of the mode ([canUseAdvancedBlendEquation] answers false, see [GrCaps]).
    Otherwise it is the shader fallback, which has no hardware equation and
    reads the destination.  In both cases the processor is for the mode.
    The enumerations are assumed to put [kOverlay] right after
    [kLastCoeffMode] or before, and the equations at non-negative values, so
    that no advanced mode is cast to the [-1] that marks "no equation". *)
Theorem onCreateXferProcessor_selects_hw_iff {D}
    (kLastCoeffMode kLastMode kOverlay kOverlay_GrBlendEquation : Z)
    (mode : Z) (caps : GrCaps) (analysis : GrPipelineAnalysis)
    (hasMixedSamples : bool) (dstTexture : option D) :
  kOverlay <= kLastCoeffMode + 1 ->
  0 <= kOverlay_GrBlendEquation ->
  IsSupportedMode kLastCoeffMode kLastMode mode = true ->
  let f := CustomXPFactory_new kOverlay kOverlay_GrBlendEquation mode in
  let xp := onCreateXferProcessor f caps analysis hasMixedSamples dstTexture in
  let conditions :=
    advancedBlendEquationSupport caps = true
    /\ fUsesPLSDstRead analysis = false
    /\ isFourChannelOutput (fCoveragePOI analysis) = false
    /\ canUseAdvancedBlendEquation caps
         (hw_blend_equation kOverlay kOverlay_GrBlendEquation mode) = false in
  (hasHWBlendEquation xp = true /\ willReadDstColor xp = false <-> conditions)
  /\ (hasHWBlendEquation xp = false /\ willReadDstColor xp = true <-> ~ conditions)
  /\ (conditions ->
      xp = CustomXP_hw mode (hw_blend_equation kOverlay kOverlay_GrBlendEquation mode))
  /\ (~ conditions -> xp = CustomXP_dst dstTexture hasMixedSamples mode)
  /\ fMode xp = mode.
Proof.
  intros Hov Heq0 Hs. cbv zeta.
  apply IsSupportedMode_true_iff in Hs.
  assert (Hne : hw_blend_equation kOverlay kOverlay_GrBlendEquation mode <> -1)
    by (apply hw_blend_equation_advanced; lia).
  rewrite <- can_use_hw_blend_equation_true_iff.
  unfold onCreateXferProcessor, CustomXPFactory_new;
    cbn [xpf_fMode xpf_fHWBlendEquation].
  destruct (can_use_hw_blend_equation _ _ _);
    unfold hasHWBlendEquation, willReadDstColor, CustomXP_hw, CustomXP_dst;
    cbn [fHWBlendEquation xp_base base_willReadDstColor fMode].
  - destruct (Z.eqb_spec (-1) (hw_blend_equation kOverlay kOverlay_GrBlendEquation mode))
      as [Heq|_]; [congruence|]. cbn [negb].
    split; [split; auto|]. split; [split; [intros [H _]; discriminate H|congruence]|].
    split; [reflexivity|]. split; [congruence|reflexivity].
  - change (-1 =? -1) with true. cbn [negb].
    split; [split; [intros [H _]; discriminate H|discriminate]|].
    split; [split; [discriminate|auto]|].
    split; [discriminate|]. split; reflexivity.
Qed.

(** Under the numbering of the headers: the factory for [kOverlay], a
    backend with advanced equations that refuses none, single-channel
    coverage and no PLS destination read give the hardware equation. *)
Lemma onCreateXferProcessor_selects_hw_iff_witness :
  hasHWBlendEquation
    (onCreateXferProcessor (Numbering.factory Numbering.kOverlay)
       (Numbering.caps_answering false) Numbering.plain_analysis false (@None unit)) = true
  /\ willReadDstColor
       (onCreateXferProcessor (Numbering.factory Numbering.kOverlay)
          (Numbering.caps_answering false) Numbering.plain_analysis false (@None unit))
     = false.
Proof.
  apply (onCreateXferProcessor_selects_hw_iff (D := unit)
           Numbering.kLastCoeffMode Numbering.kLastMode Numbering.kOverlay
           Numbering.kOverlay_GrBlendEquation Numbering.kOverlay
           (Numbering.caps_answering false) Numbering.plain_analysis false None).
  - vm_compute. discriminate.
  - vm_compute. discriminate.
  - reflexivity.
  - split; [reflexivity|]. split; [reflexivity|]. split; reflexivity.
Defined.

(** A backend that refuses the equation gets the shader fallback, as does
    four-channel coverage on a backend that refuses nothing. *)
Lemma onCreateXferProcessor_fallbacks :
  onCreateXferProcessor (Numbering.factory Numbering.kOverlay)
    (Numbering.caps_answering true) Numbering.plain_analysis false (@None unit)
  = CustomXP_dst None false Numbering.kOverlay
  /\ onCreateXferProcessor (Numbering.factory Numbering.kOverlay)
       (Numbering.caps_answering false)
       {| fColorPOI := fColorPOI Numbering.plain_analysis;
          fCoveragePOI := {| allStagesMultiplyInput := false;
                             isFourChannelOutput := true;
                             isSolidWhite := false |};
          fUsesPLSDstRead := false |} false (@None unit)
     = CustomXP_dst None false Numbering.kOverlay.
Proof. split; reflexivity. Qed.

(** C9.  [onIsEqual] answers true exactly when the two processors have the
    same blend mode and the same hardware blend equation (the same [-1] when
    they have none). *)
Theorem onIsEqual_iff {D} (this other : CustomXP D) :
  onIsEqual this other = true
  <-> fMode this = fMode other /\ fHWBlendEquation this = fHWBlendEquation other.
Proof.
  unfold onIsEqual. rewrite andb_true_iff, !Z.eqb_eq. tauto.
Qed.

Lemma onIsEqual_spec {D} (this other : CustomXP D) :
  onIsEqual this other = true
  -> fMode this = fMode other /\ fHWBlendEquation this = fHWBlendEquation other.
Proof.
  unfold onIsEqual. rewrite andb_true_iff, !Z.eqb_eq. tauto.
Qed.

(** X1.  Processors that compare equal have the same shader key, the same
    barrier requirement and the same optimisation flags: one can stand for
    the other in a cache. *)
Lemma onIsEqual_interchangeable {D} (this other : CustomXP D) :
  onIsEqual this other = true ->
  hasHWBlendEquation this = hasHWBlendEquation other
  /\ (forall caps, GenKey this caps = GenKey other caps)
  /\ (forall caps, onXferBarrier this caps = onXferBarrier other caps)
  /\ (forall analysis, onGetOptimizations this analysis = onGetOptimizations other analysis).
Proof.
  intros H. apply onIsEqual_spec in H. destruct H as [Hm He].
  assert (Hh : hasHWBlendEquation this = hasHWBlendEquation other)
    by (unfold hasHWBlendEquation; now rewrite He).
  split; [exact Hh|]. split; [|split]; intros.
  - unfold GenKey, mode. now rewrite Hh, Hm.
  - unfold onXferBarrier. now rewrite Hh.
  - unfold onGetOptimizations. now rewrite Hh.
Qed.

Lemma onIsEqual_equivalence {D} :
  (forall a : CustomXP D, onIsEqual a a = true)
  /\ (forall a b : CustomXP D, onIsEqual a b = onIsEqual b a)
  /\ (forall a b c : CustomXP D,
        onIsEqual a b = true -> onIsEqual b c = true -> onIsEqual a c = true).
Proof.
  split; [|split].
  - intros a. unfold onIsEqual. now rewrite !Z.eqb_refl.
  - intros a b. unfold onIsEqual.
    now rewrite (Z.eqb_sym (fMode a)), (Z.eqb_sym (fHWBlendEquation a)).
  - intros a b c Hab Hbc. apply onIsEqual_spec in Hab, Hbc.
    destruct Hab as [Hm1 He1], Hbc as [Hm2 He2].
    unfold onIsEqual. rewrite Hm1, Hm2, He1, He2. now rewrite !Z.eqb_refl.
Qed.

End XfermodeProofs.

(* ====================================================================== *)
(** ** Properties: the MSAA path renderer                                  *)
(* ====================================================================== *)

Module RendererProofs.

Import GrMSAAPathRenderer.

(** *** Checked [int] arithmetic *)

Lemma int_of_Some (z r : Z) :
  int_of z = Some r -> r = z /\ INT_MIN <= z <= INT_MAX.
Proof.
  unfold int_of.
  destruct (Z.leb_spec INT_MIN z), (Z.leb_spec z INT_MAX); simpl;
    intros Heq; inversion Heq; lia.
Qed.

Lemma int_of_in_range (z : Z) :
  INT_MIN <= z <= INT_MAX -> int_of z = Some z.
Proof.
  intros [Hlo Hhi]. unfold int_of.
  apply Z.leb_le in Hlo, Hhi. now rewrite Hlo, Hhi.
Qed.

Lemma int_add_Some (a b r : Z) :
  int_add a b = Some r -> r = a + b /\ INT_MIN <= a + b <= INT_MAX.
Proof. apply int_of_Some. Qed.

Lemma int_mul_Some (a b r : Z) :
  int_mul a b = Some r -> r = a * b /\ INT_MIN <= a * b <= INT_MAX.
Proof. apply int_of_Some. Qed.

Lemma kMaxIndexedVertexCnt_value : kMaxIndexedVertexCnt = 21845.
Proof. reflexivity. Qed.

(** *** What [add_quad] and the two loops over it append *)

Lemma add_quad_counts lines quads pts color indexed start :
  (3 <= length pts)%nat ->
  exists lines' quads',
    add_quad lines quads pts color indexed start = Some (lines', quads')
    /\ l_nextVertex lines' = l_nextVertex lines + 1
    /\ q_nextVertex quads' = q_nextVertex quads + 3.
Proof.
  destruct pts as [|a [|b [|c rest]]]; simpl; try lia. intros _.
  unfold add_quad; simpl nth_error; cbv zeta.
  do 2 eexists. split; [reflexivity|].
  unfold l_nextVertex, q_nextVertex, l_push, append_contour_edge_indices.
  split.
  - destruct indexed; [destruct (_ >? _)|]; simpl; rewrite length_app; simpl; lia.
  - destruct indexed; simpl; rewrite length_app; simpl; lia.
Qed.

Lemma add_quads_at_counts offsets pts color indexed start lq :
  Forall (fun o => (o + 3 <= length pts)%nat) offsets ->
  exists lq',
    add_quads_at offsets pts color indexed start lq = Some lq'
    /\ l_nextVertex (fst lq') = l_nextVertex (fst lq) + Z.of_nat (length offsets)
    /\ q_nextVertex (snd lq') = q_nextVertex (snd lq) + 3 * Z.of_nat (length offsets).
Proof.
  intros Hall. revert lq.
  induction Hall as [|o rest Ho _ IH]; intros lq.
  - exists lq. simpl. repeat split; lia.
  - destruct (add_quad_counts (fst lq) (snd lq) (skipn o pts) color indexed start)
      as (lines' & quads' & Hadd & Hl & Hq).
    { rewrite length_skipn. lia. }
    destruct (IH (lines', quads')) as (lq' & Hrest & Hl' & Hq').
    exists lq'. simpl add_quads_at. rewrite Hadd. split; [exact Hrest|].
    simpl fst in *; simpl snd in *. simpl length. lia.
Qed.

Lemma conic_offsets_length (n : Z) :
  Z.of_nat (length (conic_offsets n)) = Z.max 0 n.
Proof.
  unfold conic_offsets. rewrite length_map, length_seq. lia.
Qed.

Lemma conic_offsets_in_bounds (n : Z) (pts : list SkPoint) :
  Z.of_nat (length pts) = 2 * n + 1 ->
  Forall (fun o => (o + 3 <= length pts)%nat) (conic_offsets n).
Proof.
  intros Hlen. unfold conic_offsets.
  apply Forall_forall. intros o Hin.
  apply in_map_iff in Hin. destruct Hin as (i & <- & Hi).
  apply in_seq in Hi. lia.
Qed.

Lemma cubic_offsets_length (count : nat) :
  (count mod 3 = 0)%nat ->
  Z.of_nat (length (cubic_offsets count)) = Z.quot (Z.of_nat count) 3.
Proof.
  intros Hmod. unfold cubic_offsets. rewrite length_map, length_seq.
  rewrite Z.quot_div_nonneg by lia.
  pose proof (Nat.div_mod_eq count 3).
  pose proof (Nat.div_mod_eq (count + 2) 3).
  pose proof (Nat.mod_upper_bound (count + 2) 3).
  pose proof (Z.div_mod (Z.of_nat count) 3).
  pose proof (Z.mod_pos_bound (Z.of_nat count) 3).
  lia.
Qed.

Lemma cubic_offsets_in_bounds (pts : list SkPoint) :
  (length pts mod 3 = 0)%nat ->
  Forall (fun o => (o + 3 <= length pts)%nat) (cubic_offsets (length pts)).
Proof.
  intros Hmod. unfold cubic_offsets.
  apply Forall_forall. intros o Hin.
  apply in_map_iff in Hin. destruct Hin as (k & <- & Hk).
  apply in_seq in Hk.
  pose proof (Nat.div_mod_eq (length pts) 3).
  pose proof (Nat.div_mod_eq (length pts + 2) 3).
  pose proof (Nat.mod_upper_bound (length pts + 2) 3).
  lia.
Qed.

(** *** What [createGeom] appends and what [ComputeWorstCasePointCount] returns *)

Ltac int_steps :=
  repeat match goal with
  | H : context [int_add ?a ?b] |- _ =>
      let E := fresh "E" in
      destruct (int_add a b) eqn:E;
        [apply int_add_Some in E; cbv beta iota in H
        | cbv beta iota in H; discriminate H]
  | H : context [int_mul ?a ?b] |- _ =>
      let E := fresh "E" in
      destruct (int_mul a b) eqn:E;
        [apply int_mul_Some in E; cbv beta iota in H
        | cbv beta iota in H; discriminate H]
  | H : context [int_of ?a] |- _ =>
      let E := fresh "E" in
      destruct (int_of a) eqn:E;
        [apply int_of_Some in E; cbv beta iota in H
        | cbv beta iota in H; discriminate H]
  | H : Some _ = Some _ |- _ => inversion H; subst; clear H
  end;
  repeat match goal with
  | H : _ = _ /\ _ <= _ <= _ |- _ => destruct H as [? [? ?]]
  end;
  subst.

Ltac geom_simpl :=
  cbn [fst snd g_lines g_quads g_subpathIdxStart g_first
       wc_first wc_subpaths wc_linePointCount wc_quadPointCount total] in *.

Lemma triples_quot (len : nat) :
  (len mod 3 = 0)%nat -> Z.of_nat len = 3 * Z.quot (Z.of_nat len) 3.
Proof.
  intros Hmod. rewrite Z.quot_div_nonneg by lia.
  pose proof (Nat.div_mod_eq len 3).
  pose proof (Z.div_mod (Z.of_nat len) 3).
  pose proof (Z.mod_pos_bound (Z.of_nat len) 3).
  lia.
Qed.

Lemma total_app (f : Verb -> Z) (xs ys : list Verb) :
  total f (xs ++ ys) = total f xs + total f ys.
Proof. induction xs as [|x xs IH]; simpl; lia. Qed.

Section Counting.
Context {S : Skia} {HC : Converters S}.

Lemma verb_quads_nonneg (verb : Verb) : 0 <= verb_quads verb.
Proof.
  destruct verb; simpl; try lia.
  - apply countQuads_nonneg.
  - apply Z.quot_pos; lia.
Qed.

Lemma verb_line_vertices_nonneg (verb : Verb) : 0 <= verb_line_vertices verb.
Proof.
  pose proof (verb_quads_nonneg verb).
  destruct verb; cbn [verb_line_vertices verb_quads verb_is_move] in *; lia.
Qed.

Lemma verb_is_conic_bounds (verb : Verb) : 0 <= verb_is_conic verb <= 1.
Proof. destruct verb; simpl; lia. Qed.

Lemma verb_is_move_bounds (verb : Verb) :
  0 <= verb_is_move verb <= verb_line_vertices verb.
Proof.
  pose proof (verb_quads_nonneg verb).
  destruct verb; cbn [verb_line_vertices verb_quads verb_is_move] in *; lia.
Qed.

(** Every verb that appends quad vertices appends a line vertex per quad. *)
Lemma verb_quad_vertices_le (verb : Verb) :
  0 <= verb_quad_vertices verb <= 3 * verb_line_vertices verb.
Proof.
  unfold verb_quad_vertices.
  pose proof (verb_quads_nonneg verb).
  destruct verb; cbn [verb_line_vertices verb_quads verb_is_move] in *; lia.
Qed.

Lemma total_nonneg (f : Verb -> Z) (verbs : list Verb) :
  (forall verb, 0 <= f verb) -> 0 <= total f verbs.
Proof.
  intros Hf. induction verbs as [|v vs IH]; simpl; [lia|].
  specialize (Hf v). lia.
Qed.

Lemma total_le (f g : Verb -> Z) (verbs : list Verb) :
  (forall verb, f verb <= g verb) -> total f verbs <= total g verbs.
Proof.
  intros Hfg. induction verbs as [|v vs IH]; simpl; [lia|].
  specialize (Hfg v). lia.
Qed.

Lemma total_quad_vertices_le (verbs : list Verb) :
  0 <= total verb_quad_vertices verbs
  /\ total verb_quad_vertices verbs <= 3 * total verb_line_vertices verbs.
Proof.
  induction verbs as [|v vs IH]; cbn [total]; [lia|].
  pose proof (verb_quad_vertices_le v). lia.
Qed.

Lemma createGeom_verb_counts color isIndexed (st : Geom) (verb : Verb) :
  exists st',
    createGeom_verb color isIndexed st verb = Some st'
    /\ l_nextVertex (g_lines st')
       = l_nextVertex (g_lines st) + verb_line_vertices verb
    /\ q_nextVertex (g_quads st')
       = q_nextVertex (g_quads st) + verb_quad_vertices verb.
Proof.
  destruct verb as [p0|p0 p1|p0 p1 p2|p0 p1 p2 w|p0 p1 p2 p3|];
    unfold verb_quad_vertices; simpl verb_line_vertices; simpl verb_quads.
  - eexists. split; [reflexivity|]. simpl.
    unfold l_nextVertex, l_push; simpl. rewrite length_app; simpl. lia.
  - eexists. split; [reflexivity|]. simpl.
    unfold l_nextVertex, l_push, append_contour_edge_indices.
    destruct isIndexed; [destruct (_ >? _)|]; simpl; rewrite length_app; simpl; lia.
  - destruct (add_quad_counts (g_lines st) (g_quads st) [p0; p1; p2] color isIndexed
                (g_subpathIdxStart st)) as (l' & q' & Hadd & Hl & Hq);
      [simpl; lia|].
    unfold createGeom_verb. rewrite Hadd. eexists. split; [reflexivity|].
    geom_simpl. lia.
  - pose proof (countQuads_nonneg p0 p1 p2 w kTolerance) as Hn.
    destruct (add_quads_at_counts
                (conic_offsets (fQuadCount (computeQuads p0 p1 p2 w kTolerance)))
                (fPts (computeQuads p0 p1 p2 w kTolerance)) color isIndexed
                (g_subpathIdxStart st) (g_lines st, g_quads st))
      as ([l' q'] & Hrun & Hl & Hq).
    { apply conic_offsets_in_bounds, computeQuads_points. }
    rewrite conic_offsets_length in Hl, Hq.
    unfold createGeom_verb; cbv zeta. rewrite Hrun.
    eexists. split; [reflexivity|]. geom_simpl. lia.
  - pose proof (convertCubicToQuads_triples p0 p1 p2 p3 kTolerance) as Hmod.
    destruct (add_quads_at_counts
                (cubic_offsets (length (convertCubicToQuads p0 p1 p2 p3 kTolerance)))
                (convertCubicToQuads p0 p1 p2 p3 kTolerance) color isIndexed
                (g_subpathIdxStart st) (g_lines st, g_quads st))
      as ([l' q'] & Hrun & Hl & Hq).
    { now apply cubic_offsets_in_bounds. }
    rewrite cubic_offsets_length in Hl, Hq by exact Hmod.
    unfold createGeom_verb; cbv zeta. rewrite Hrun.
    eexists. split; [reflexivity|]. geom_simpl. lia.
  - eexists. split; [reflexivity|]. geom_simpl. lia.
Qed.

Lemma createGeom_loop_counts color isIndexed (verbs : list Verb) (st : Geom) :
  exists st',
    createGeom_loop color isIndexed verbs st = Some st'
    /\ l_nextVertex (g_lines st')
       = l_nextVertex (g_lines st) + total verb_line_vertices verbs
    /\ q_nextVertex (g_quads st')
       = q_nextVertex (g_quads st) + total verb_quad_vertices verbs.
Proof.
  revert st. induction verbs as [|verb rest IH]; intros st.
  - exists st. cbn [createGeom_loop total]. repeat split; lia.
  - destruct (createGeom_verb_counts color isIndexed st verb) as (st1 & Hstep & Hl & Hq).
    destruct (IH st1) as (st' & Hrest & Hl' & Hq').
    exists st'. cbn [createGeom_loop total]. rewrite Hstep. split; [exact Hrest|]. lia.
Qed.

(** [createGeom] always returns, having appended exactly the reference
    counts. *)
Lemma createGeom_counts lines quads (path : SkPath) (m : SkMatrix) color isIndexed :
  exists lines' quads',
    createGeom lines quads path m color isIndexed = Some (lines', quads')
    /\ l_nextVertex lines' = l_nextVertex lines + total verb_line_vertices (Iter path)
    /\ q_nextVertex quads' = q_nextVertex quads + total verb_quad_vertices (Iter path).
Proof.
  unfold createGeom.
  destruct (createGeom_loop_counts color isIndexed (Iter path)
              (mkGeom lines quads (uint16_t (l_nextVertex lines)) true))
    as (st' & Hrun & Hl & Hq).
  rewrite Hrun. do 2 eexists. split; [reflexivity|]. geom_simpl. lia.
Qed.

Lemma worst_case_verb_counts (st st' : WorstCase) (verb : Verb) :
  worst_case_verb st verb = Some st' ->
  wc_linePointCount st'
  = wc_linePointCount st + verb_line_vertices verb + verb_is_conic verb
  /\ wc_quadPointCount st'
     = wc_quadPointCount st + verb_quad_vertices verb + 3 * verb_is_conic verb
  /\ wc_subpaths st'
     = wc_subpaths st + (if wc_first st then 0 else verb_is_move verb)
  /\ wc_first st' = false.
Proof.
  unfold worst_case_verb, worst_case_quad, verb_quad_vertices.
  destruct verb as [p0|p0 p1|p0 p1 p2|p0 p1 p2 w|p0 p1 p2 p3|];
    simpl verb_line_vertices; simpl verb_quads; simpl verb_is_conic;
    simpl verb_is_move; cbv zeta; intros H.
  - destruct (wc_first st); cbn [negb] in H; int_steps; geom_simpl; lia.
  - int_steps; geom_simpl; destruct (wc_first st); lia.
  - int_steps; geom_simpl; destruct (wc_first st); lia.
  - int_steps; geom_simpl; destruct (wc_first st); lia.
  - pose proof (triples_quot _ (convertCubicToQuads_triples p0 p1 p2 p3 kTolerance)).
    int_steps; geom_simpl; destruct (wc_first st); lia.
  - int_steps; geom_simpl; destruct (wc_first st); lia.
Qed.

Lemma worst_case_loop_counts (verbs : list Verb) (st st' : WorstCase) :
  worst_case_loop verbs st = Some st' ->
  wc_linePointCount st'
  = wc_linePointCount st + total verb_line_vertices verbs + total verb_is_conic verbs
  /\ wc_quadPointCount st'
     = wc_quadPointCount st + total verb_quad_vertices verbs
       + 3 * total verb_is_conic verbs.
Proof.
  revert st. induction verbs as [|verb rest IH]; intros st H; simpl in H.
  - inversion H; subst. cbn [total]. lia.
  - destruct (worst_case_verb st verb) as [st1|] eqn:Hstep; [|discriminate].
    apply worst_case_verb_counts in Hstep. apply IH in H. cbn [total]. lia.
Qed.

(** The counts returned, when the computation is defined. *)
Lemma ComputeWorstCasePointCount_counts (path : SkPath) (subpaths maxLine maxQuad : Z) :
  ComputeWorstCasePointCount path = Some (subpaths, maxLine, maxQuad) ->
  maxLine = total verb_line_vertices (Iter path) + total verb_is_conic (Iter path)
  /\ maxQuad = total verb_quad_vertices (Iter path) + 3 * total verb_is_conic (Iter path).
Proof.
  unfold ComputeWorstCasePointCount. intros H.
  destruct (worst_case_loop _ _) as [st|] eqn:Hrun; [|discriminate].
  inversion H; subst. apply worst_case_loop_counts in Hrun. geom_simpl. lia.
Qed.

Lemma worst_case_loop_subpaths (verbs : list Verb) (st st' : WorstCase) :
  wc_first st = false ->
  worst_case_loop verbs st = Some st' ->
  wc_subpaths st' = wc_subpaths st + total verb_is_move verbs.
Proof.
  revert st. induction verbs as [|verb rest IH]; intros st Hfirst H; simpl in H.
  - inversion H; subst. cbn [total]. lia.
  - destruct (worst_case_verb st verb) as [st1|] eqn:Hstep; [|discriminate].
    apply worst_case_verb_counts in Hstep. destruct Hstep as (_ & _ & Hs & Hf).
    rewrite Hfirst in Hs. apply (IH _ Hf) in H. cbn [total]. lia.
Qed.

(** [*subpaths] is one more than the number of move verbs that are not the
    very first verb. *)
Lemma ComputeWorstCasePointCount_subpaths (path : SkPath) (subpaths maxLine maxQuad : Z) :
  ComputeWorstCasePointCount path = Some (subpaths, maxLine, maxQuad) ->
  subpaths = 1 + total verb_is_move (tl (Iter path)).
Proof.
  unfold ComputeWorstCasePointCount. intros H.
  destruct (worst_case_loop _ _) as [st|] eqn:Hrun; [|discriminate].
  inversion H; subst. clear H.
  destruct (Iter path) as [|verb rest]; simpl in Hrun.
  - inversion Hrun; subst. reflexivity.
  - destruct (worst_case_verb _ verb) as [st1|] eqn:Hstep; [|discriminate].
    apply worst_case_verb_counts in Hstep. destruct Hstep as (_ & _ & Hs & Hf).
    apply (worst_case_loop_subpaths _ _ _ Hf) in Hrun.
    geom_simpl. cbn [tl]. lia.
Qed.

Lemma worst_case_verb_defined (st : WorstCase) (verb : Verb) :
  0 <= wc_linePointCount st -> 0 <= wc_quadPointCount st -> 0 <= wc_subpaths st ->
  wc_linePointCount st + verb_line_vertices verb + verb_is_conic verb <= INT_MAX ->
  wc_quadPointCount st + verb_quad_vertices verb + 3 * verb_is_conic verb <= INT_MAX ->
  wc_subpaths st + verb_is_move verb <= INT_MAX ->
  exists st', worst_case_verb st verb = Some st'.
Proof.
  intros Hl Hq Hs Hlmax Hqmax Hsmax.
  pose proof (verb_quads_nonneg verb) as Hn.
  unfold worst_case_verb, worst_case_quad, verb_quad_vertices, int_add, int_mul in *.
  assert (Hmin : INT_MIN < 0) by reflexivity.
  destruct verb as [p0|p0 p1|p0 p1 p2|p0 p1 p2 w|p0 p1 p2 p3|];
    cbn [verb_line_vertices verb_quads verb_is_conic verb_is_move] in *; cbv zeta.
  - rewrite int_of_in_range by lia. cbv beta iota.
    destruct (wc_first st); cbn [negb]; [|rewrite int_of_in_range by lia];
      eexists; reflexivity.
  - rewrite int_of_in_range by lia. eexists; reflexivity.
  - do 2 (rewrite int_of_in_range by lia; cbv beta iota). eexists; reflexivity.
  - do 5 (rewrite int_of_in_range by lia; cbv beta iota). eexists; reflexivity.
  - pose proof (triples_quot _ (convertCubicToQuads_triples p0 p1 p2 p3 kTolerance)).
    do 3 (rewrite int_of_in_range by lia; cbv beta iota). eexists; reflexivity.
  - eexists; reflexivity.
Qed.

Lemma worst_case_loop_defined (verbs : list Verb) (st : WorstCase) :
  0 <= wc_linePointCount st -> 0 <= wc_quadPointCount st -> 0 <= wc_subpaths st ->
  wc_linePointCount st + total verb_line_vertices verbs + total verb_is_conic verbs
    <= INT_MAX ->
  wc_quadPointCount st + total verb_quad_vertices verbs + 3 * total verb_is_conic verbs
    <= INT_MAX ->
  wc_subpaths st + total verb_is_move verbs <= INT_MAX ->
  exists st', worst_case_loop verbs st = Some st'.
Proof.
  revert st. induction verbs as [|verb rest IH];
    intros st Hl Hq Hs Hlmax Hqmax Hsmax; cbn [total worst_case_loop] in *.
  - eexists; reflexivity.
  - pose proof (total_nonneg verb_line_vertices rest verb_line_vertices_nonneg).
    pose proof (total_nonneg verb_is_conic rest (fun v => proj1 (verb_is_conic_bounds v))).
    pose proof (total_nonneg verb_is_move rest (fun v => proj1 (verb_is_move_bounds v))).
    pose proof (total_quad_vertices_le rest).
    pose proof (verb_line_vertices_nonneg verb).
    pose proof (verb_quad_vertices_le verb).
    pose proof (verb_is_conic_bounds verb).
    pose proof (verb_is_move_bounds verb).
    destruct (worst_case_verb_defined st verb) as (st1 & Hstep); try lia.
    rewrite Hstep.
    apply worst_case_verb_counts in Hstep. destruct Hstep as (Hl1 & Hq1 & Hs1 & _).
    apply IH; destruct (wc_first st); lia.
Qed.

(** X2.  The computation is defined on every path whose counts fit an [int]:
    it runs into no overflow as long as three times the worst-case line
    count does not exceed [INT_MAX]. *)
Lemma ComputeWorstCasePointCount_defined (path : SkPath) :
  3 * (total verb_line_vertices (Iter path) + total verb_is_conic (Iter path)) <= INT_MAX ->
  exists subpaths,
    ComputeWorstCasePointCount path
    = Some (subpaths,
            total verb_line_vertices (Iter path) + total verb_is_conic (Iter path),
            total verb_quad_vertices (Iter path) + 3 * total verb_is_conic (Iter path)).
Proof.
  intros Hmax.
  pose proof (total_nonneg verb_line_vertices (Iter path) verb_line_vertices_nonneg).
  pose proof (total_nonneg verb_is_conic (Iter path)
                (fun v => proj1 (verb_is_conic_bounds v))).
  pose proof (total_quad_vertices_le (Iter path)).
  pose proof (total_le verb_is_move verb_line_vertices (Iter path)
                (fun v => proj2 (verb_is_move_bounds v))).
  assert (Hmaxv : INT_MAX = 2147483647) by reflexivity.
  destruct (worst_case_loop_defined (Iter path) (mkWorstCase true 1 0 0))
    as (st & Hrun); geom_simpl; try lia.
  unfold ComputeWorstCasePointCount. rewrite Hrun.
  apply worst_case_loop_counts in Hrun. geom_simpl.
  destruct Hrun as [-> ->]. eexists. repeat f_equal; lia.
Qed.

(** C1.  Whenever [ComputeWorstCasePointCount] returns counts for a path,
    [createGeom] on the same path (same tolerance, any buffers, colour and
    indexing) returns, and it has appended at most [maxLine] line vertices and
    at most [maxQuad] quad vertices.  The excess is exactly one line vertex
    and three quad vertices per conic verb: the conic case falls through into
    the quad case and so counts one quad more than [createGeom] builds. *)
Theorem worst_case_counts_bound_geometry
    (path : SkPath) (subpaths maxLine maxQuad : Z)
    (lines : MSAALineVertices) (quads : MSAAQuadVertices)
    (m : SkMatrix) (color : SkColor) (isIndexed : bool) :
  ComputeWorstCasePointCount path = Some (subpaths, maxLine, maxQuad) ->
  exists lines' quads',
    createGeom lines quads path m color isIndexed = Some (lines', quads')
    /\ l_nextVertex lines' - l_nextVertex lines <= maxLine
    /\ q_nextVertex quads' - q_nextVertex quads <= maxQuad
    /\ maxLine - (l_nextVertex lines' - l_nextVertex lines)
       = total verb_is_conic (Iter path)
    /\ maxQuad - (q_nextVertex quads' - q_nextVertex quads)
       = 3 * total verb_is_conic (Iter path).
Proof.
  intros Hworst. apply ComputeWorstCasePointCount_counts in Hworst.
  destruct Hworst as [-> ->].
  destruct (createGeom_counts lines quads path m color isIndexed)
    as (lines' & quads' & Hrun & Hl & Hq).
  pose proof (total_nonneg verb_is_conic (Iter path)
                (fun v => proj1 (verb_is_conic_bounds v))).
  exists lines', quads'. split; [exact Hrun|]. lia.
Qed.

(** C10.  If [ComputeWorstCasePointCount] returns a line count of zero, it
    returns a quad count of zero; [createGeom] then appends nothing to either
    buffer, so the early return of [onPrepareDraws] drops no geometry, and
    the op that [Make] builds satisfies the assertion
    [fMaxQuadVertices == 0] at that return.  A turn of the counting loop
    that raises the quad count raises the line count. *)
Theorem zero_line_count_has_zero_quad_count
    (path : SkPath) (subpaths maxQuad : Z) :
  ComputeWorstCasePointCount path = Some (subpaths, 0, maxQuad) ->
  maxQuad = 0
  /\ (forall st verb st',
        worst_case_verb st verb = Some st' ->
        wc_quadPointCount st < wc_quadPointCount st' ->
        wc_linePointCount st < wc_linePointCount st')
  /\ (forall lines quads m color isIndexed,
        exists lines' quads',
          createGeom lines quads path m color isIndexed = Some (lines', quads')
          /\ l_nextVertex lines' = l_nextVertex lines
          /\ q_nextVertex quads' = q_nextVertex quads)
  /\ (forall color viewMatrix devBounds,
        exists op,
          Make color path viewMatrix devBounds = Some (Some op)
          /\ fMaxLineVertices op = 0
          /\ fMaxQuadVertices op = 0
          /\ forall target, onPrepareDraws op target = Some []).
Proof.
  intros Hworst.
  pose proof (ComputeWorstCasePointCount_counts _ _ _ _ Hworst) as [Hl Hq].
  pose proof (total_nonneg verb_line_vertices (Iter path) verb_line_vertices_nonneg).
  pose proof (total_nonneg verb_is_conic (Iter path)
                (fun v => proj1 (verb_is_conic_bounds v))).
  pose proof (total_quad_vertices_le (Iter path)).
  assert (HmaxQuad : maxQuad = 0) by lia.
  split; [exact HmaxQuad|]. split; [|split].
  - intros st verb st' Hstep Hlt.
    apply worst_case_verb_counts in Hstep. destruct Hstep as (Hl' & Hq' & _).
    pose proof (verb_quad_vertices_le verb).
    pose proof (verb_is_conic_bounds verb). lia.
  - intros lines quads m color isIndexed.
    destruct (createGeom_counts lines quads path m color isIndexed)
      as (lines' & quads' & Hrun & Hl' & Hq').
    exists lines', quads'. split; [exact Hrun|]. lia.
  - intros color viewMatrix devBounds. unfold Make.
    rewrite HmaxQuad in Hworst. rewrite Hworst.
    replace (0 >? kMaxIndexedVertexCnt) with false by reflexivity.
    cbn [orb]. rewrite andb_false_r. eexists. split; [reflexivity|].
    cbn [fMaxLineVertices fMaxQuadVertices]. repeat split; reflexivity.
Qed.

End Counting.

(** *** Batch creation *)

Section Batches.
Context {S : Skia}.

(** C5.  [Make] returns [nullptr] if and only if the counting returns a
    subpath count above one together with a line or a quad count above
    [kMaxIndexedVertexCnt = 65535 / 3]; a path whose subpath count is at most
    one always yields an op (not indexed); and whenever the counting is
    defined [Make] returns a value, null or an op. *)
Theorem Make_rejects_iff
    (color : SkColor) (path : SkPath) (viewMatrix : SkMatrix) (devBounds : SkRect) :
  (Make color path viewMatrix devBounds = Some None
   <-> exists contourCount maxLine maxQuad,
         ComputeWorstCasePointCount path = Some (contourCount, maxLine, maxQuad)
         /\ 1 < contourCount
         /\ (kMaxIndexedVertexCnt < maxLine \/ kMaxIndexedVertexCnt < maxQuad))
  /\ kMaxIndexedVertexCnt = Z.quot 65535 3
  /\ (forall contourCount maxLine maxQuad,
        ComputeWorstCasePointCount path = Some (contourCount, maxLine, maxQuad) ->
        contourCount <= 1 ->
        exists op, Make color path viewMatrix devBounds = Some (Some op)
                   /\ fIsIndexed op = false
                   /\ fMaxLineVertices op = maxLine
                   /\ fMaxQuadVertices op = maxQuad)
  /\ (forall contourCount maxLine maxQuad,
        ComputeWorstCasePointCount path = Some (contourCount, maxLine, maxQuad) ->
        exists made, Make color path viewMatrix devBounds = Some made).
Proof.
  unfold Make. split; [|split; [reflexivity|split]].
  - destruct (ComputeWorstCasePointCount path) as [[[c l] q]|].
    + destruct (Z.gtb_spec c 1), (Z.gtb_spec l kMaxIndexedVertexCnt),
        (Z.gtb_spec q kMaxIndexedVertexCnt); cbn [andb orb]; split;
        try discriminate;
        try (intros _; exists c, l, q; split; [reflexivity|lia]);
        try (intros (c' & l' & q' & Heq & Hc & Hlq); inversion Heq; subst; lia);
        reflexivity.
    + split; [discriminate|]. intros (c & l & q & Heq & _). discriminate.
  - intros c l q -> Hc.
    destruct (Z.gtb_spec c 1); [lia|]. cbn [andb].
    eexists. split; [reflexivity|]. repeat split; reflexivity.
  - intros c l q ->.
    destruct (_ && _); eexists; reflexivity.
Qed.

End Batches.

(** *** The pass plan and the cover pass *)

Section Drawing.
Context {S : Skia}.

Lemma single_pass_shape_true_iff (shape : GrShape) :
  single_pass_shape shape = true
  <-> inverseFilled shape = false /\ knownToBeConvex shape = true.
Proof.
  unfold single_pass_shape.
  destruct (inverseFilled shape), (knownToBeConvex shape); simpl; intuition discriminate.
Qed.

(** C4, as amended.  A shape that is not inverse filled and is known to be
    convex gets one pass, with or without [stencilOnly] and whatever its fill
    value, which is not looked at.  Any other shape whose fill type is one of
    the four enumerators gets two passes when colour is written and one when
    only the stencil is.  With any other fill value such a shape reaches the
    [default:] label of the switch ([SkDEBUGFAIL], then [return false]):
    nothing is planned, and the draw returns false without an op added.  No
    other shape gets there. *)
Theorem internalDrawPath_pass_count
    (userStencilSettings : GrUserStencilSettings) (shape : GrShape) (stencilOnly : bool) :
  (inverseFilled shape = false -> knownToBeConvex shape = true ->
   exists plan,
     internalDrawPath_plan userStencilSettings shape stencilOnly = Plan plan
     /\ passCount plan = 1
     /\ length (passes plan) = 1%nat
     /\ lastPassIsBounds plan = false)
  /\ (single_pass_shape shape = false ->
      (getFillType (asPath shape) = kEvenOdd_FillType
       \/ getFillType (asPath shape) = kInverseEvenOdd_FillType
       \/ getFillType (asPath shape) = kWinding_FillType
       \/ getFillType (asPath shape) = kInverseWinding_FillType) ->
      exists plan,
        internalDrawPath_plan userStencilSettings shape stencilOnly = Plan plan
        /\ passCount plan = (if stencilOnly then 1 else 2)
        /\ Z.of_nat (length (passes plan)) = passCount plan
        /\ lastPassIsBounds plan = negb stencilOnly)
  /\ (single_pass_shape shape = false ->
      forall raw, getFillType (asPath shape) = FillType_other raw ->
      internalDrawPath_plan userStencilSettings shape stencilOnly = UnknownFill
      /\ forall width height color viewMatrix,
           internalDrawPath width height color userStencilSettings viewMatrix
             shape stencilOnly = Some (false, []))
  /\ (internalDrawPath_plan userStencilSettings shape stencilOnly = UnknownFill
      <-> single_pass_shape shape = false
          /\ exists raw, getFillType (asPath shape) = FillType_other raw).
Proof.
  split; [|split; [|split]].
  - intros Hinv Hconvex.
    assert (Hsingle : single_pass_shape shape = true)
      by (apply single_pass_shape_true_iff; auto).
    unfold internalDrawPath_plan. rewrite Hsingle.
    eexists. split; [reflexivity|]. repeat split; reflexivity.
  - intros Hsingle Hfill.
    unfold internalDrawPath_plan. rewrite Hsingle.
    destruct Hfill as [-> | [-> | [-> | ->]]]; destruct stencilOnly;
      eexists; (split; [reflexivity|]); repeat split; reflexivity.
  - intros Hsingle raw Hfill.
    assert (Hplan : internalDrawPath_plan userStencilSettings shape stencilOnly
                    = UnknownFill).
    { unfold internalDrawPath_plan. now rewrite Hsingle, Hfill. }
    split; [exact Hplan|].
    intros. unfold internalDrawPath. now rewrite Hplan.
  - unfold internalDrawPath_plan.
    destruct (single_pass_shape shape).
    + split; [discriminate|intros [H _]; discriminate H].
    + destruct (getFillType (asPath shape)) as [| | | |raw]; destruct stencilOnly;
        try (split; [discriminate|intros [_ [raw' H]]; discriminate H]);
        (split; [intros _; split; [reflexivity|exists raw; reflexivity]
                |reflexivity]).
Qed.

(** The shapes of the plans that end in a cover pass. *)
Lemma cover_plan_inv userStencilSettings (shape : GrShape) stencilOnly (plan : PassPlan) :
  internalDrawPath_plan userStencilSettings shape stencilOnly = Plan plan ->
  lastPassIsBounds plan = true ->
  single_pass_shape shape = false
  /\ stencilOnly = false
  /\ passCount plan = 2
  /\ exists stencilPass coverPass,
       passes plan = [stencilPass; coverPass]
       /\ (getFillType (asPath shape) = kEvenOdd_FillType
           /\ reverse plan = false
           /\ stencilPass = gEOStencilPass /\ coverPass = gEOColorPass
           \/ getFillType (asPath shape) = kInverseEvenOdd_FillType
              /\ reverse plan = true
              /\ stencilPass = gEOStencilPass /\ coverPass = gInvEOColorPass
           \/ getFillType (asPath shape) = kWinding_FillType
              /\ reverse plan = false
              /\ stencilPass = gWindStencilSeparateWithWrap /\ coverPass = gWindColorPass
           \/ getFillType (asPath shape) = kInverseWinding_FillType
              /\ reverse plan = true
              /\ stencilPass = gWindStencilSeparateWithWrap
              /\ coverPass = gInvWindColorPass).
Proof.
  unfold internalDrawPath_plan. intros Hplan Hlast.
  destruct (single_pass_shape shape).
  { inversion Hplan; subst plan. discriminate Hlast. }
  destruct (getFillType (asPath shape)); destruct stencilOnly;
    inversion Hplan; subst plan; try discriminate Hlast;
    (split; [reflexivity|]); (split; [reflexivity|]); (split; [reflexivity|]);
    do 2 eexists; (split; [reflexivity|]); tauto.
Qed.

(** C6, as amended.  Take a plan that ends in the colour-writing cover
    pass, and let [Make] build the op of the stencil pass.  The ops added
    are then that op followed by one rectangle: the path's own bounds under
    the view matrix when the fill is not inverse; for an inverse fill with an
    invertible view matrix, the device bounds mapped through the inverse
    (view matrix kept) when there is no perspective, else the device bounds
    themselves under the identity with the inverse as local matrix.  For an
    inverse fill with a view matrix that has no inverse only the stencil op
    is added and the draw returns false. *)
Theorem cover_pass_rectangle
    (width height : Z) (color : SkColor) (userStencilSettings : GrUserStencilSettings)
    (viewMatrix : SkMatrix) (shape : GrShape) (stencilOnly : bool)
    (plan : PassPlan) (op : MSAAPathOp) :
  internalDrawPath_plan userStencilSettings shape stencilOnly = Plan plan ->
  lastPassIsBounds plan = true ->
  Make color (asPath shape) viewMatrix
       (GetPathDevBounds (asPath shape) width height viewMatrix) = Some (Some op) ->
  exists stencilPass coverPass,
    passes plan = [stencilPass; coverPass]
    /\ reverse plan
       = match getFillType (asPath shape) with
         | kInverseEvenOdd_FillType | kInverseWinding_FillType => true
         | _ => false
         end
    /\ internalDrawPath width height color userStencilSettings viewMatrix shape stencilOnly
       = let path := asPath shape in
         let devBounds := GetPathDevBounds path width height viewMatrix in
         let stencilDraw :=
           {| userStencil := stencilPass;
              disableColorXPFactory := true;
              drawOp := PathOp op |} in
         let cover viewM rect localMatrix :=
           {| userStencil := coverPass;
              disableColorXPFactory := false;
              drawOp := NonAAFillRectOp color viewM rect localMatrix |} in
         if reverse plan then
           match invert viewMatrix with
           | None => Some (false, [stencilDraw])
           | Some vmi =>
               if hasPerspective viewMatrix
               then Some (true, [stencilDraw; cover SkMatrix_I devBounds vmi])
               else Some (true, [stencilDraw;
                                 cover viewMatrix (mapRect vmi devBounds) SkMatrix_I])
           end
         else Some (true, [stencilDraw; cover viewMatrix (getBounds path) SkMatrix_I]).
Proof.
  intros Hplan Hlast HMake.
  destruct (cover_plan_inv _ _ _ _ Hplan Hlast)
    as (_ & _ & Hcount & stencilPass & coverPass & Hpasses & Hfill).
  exists stencilPass, coverPass. split; [exact Hpasses|]. split.
  { destruct Hfill as [H|[H|[H|H]]]; destruct H as (-> & -> & _); reflexivity. }
  unfold internalDrawPath. rewrite Hplan, Hcount.
  change (map Z.of_nat (seq 0 (Z.to_nat 2))) with [0; 1].
  cbn [draw_passes]. unfold draw_pass.
  rewrite Hpasses, Hlast, Hcount, HMake.
  change (Z.to_nat 0) with 0%nat. change (Z.to_nat 1) with 1%nat.
  cbn [nth_error app].
  change (0 =? 2 - 1) with false. change (1 =? 2 - 1) with true.
  change (2 >? 1) with true. cbn [andb].
  destruct (reverse plan); cbn [andb]; [|reflexivity].
  destruct (hasPerspective viewMatrix); cbn [negb];
    destruct (invert viewMatrix); reflexivity.
Qed.

(** When [Make] rejects the path, nothing is added and the draw fails. *)
Lemma cover_pass_without_op
    (width height : Z) (color : SkColor) (userStencilSettings : GrUserStencilSettings)
    (viewMatrix : SkMatrix) (shape : GrShape) (stencilOnly : bool) (plan : PassPlan) :
  internalDrawPath_plan userStencilSettings shape stencilOnly = Plan plan ->
  lastPassIsBounds plan = true ->
  Make color (asPath shape) viewMatrix
       (GetPathDevBounds (asPath shape) width height viewMatrix) = Some None ->
  internalDrawPath width height color userStencilSettings viewMatrix shape stencilOnly
  = Some (false, []).
Proof.
  intros Hplan Hlast HMake.
  destruct (cover_plan_inv _ _ _ _ Hplan Hlast)
    as (_ & _ & Hcount & stencilPass & coverPass & Hpasses & _).
  unfold internalDrawPath. rewrite Hplan, Hcount.
  change (map Z.of_nat (seq 0 (Z.to_nat 2))) with [0; 1].
  cbn [draw_passes]. unfold draw_pass.
  rewrite Hpasses, Hlast, Hcount, HMake.
  change (Z.to_nat 0) with 0%nat. cbn [nth_error].
  change (0 =? 2 - 1) with false. cbn [andb]. reflexivity.
Qed.

End Drawing.

(** *** Merging batches *)

Section Merging.
Context {S : Skia}.

Lemma onCombineIfPossible_merged (this that this' : MSAAPathOp) (caps : GrCaps) :
  onCombineIfPossible this that caps = Some (true, this') ->
  fMaxLineVertices this' = fMaxLineVertices this + fMaxLineVertices that
  /\ fMaxQuadVertices this' = fMaxQuadVertices this + fMaxQuadVertices that
  /\ fPaths this' = fPaths this ++ fPaths that
  /\ bounds this' = joinBounds (bounds this) (bounds that)
  /\ fIsIndexed this' = true
  /\ fViewMatrix this' = fViewMatrix this
  /\ fMaxLineVertices this + fMaxLineVertices that <= kMaxIndexedVertexCnt
  /\ fMaxQuadVertices this + fMaxQuadVertices that <= kMaxIndexedVertexCnt
  /\ cheapEqualTo (fViewMatrix this) (fViewMatrix that) = true
  /\ exists this_pipeline that_pipeline,
       pipeline this = Some this_pipeline /\ pipeline that = Some that_pipeline
       /\ CanCombine this_pipeline (bounds this) that_pipeline (bounds that) caps = true.
Proof.
  unfold onCombineIfPossible. intros H.
  destruct (pipeline this) as [p1|]; [|discriminate].
  destruct (pipeline that) as [p2|]; [|discriminate].
  destruct (CanCombine p1 (bounds this) p2 (bounds that) caps) eqn:Hcan;
    cbn [negb] in H; [|inversion H].
  destruct (cheapEqualTo (fViewMatrix this) (fViewMatrix that)) eqn:Heq;
    cbn [negb] in H; [|inversion H].
  destruct (int_add (fMaxLineVertices this) (fMaxLineVertices that)) as [l|] eqn:El;
    [|discriminate].
  apply int_add_Some in El. destruct El as [-> _].
  destruct (Z.gtb_spec (fMaxLineVertices this + fMaxLineVertices that)
              kMaxIndexedVertexCnt); [inversion H|].
  destruct (int_add (fMaxQuadVertices this) (fMaxQuadVertices that)) as [q|] eqn:Eq;
    [|discriminate].
  apply int_add_Some in Eq. destruct Eq as [-> _].
  destruct (Z.gtb_spec (fMaxQuadVertices this + fMaxQuadVertices that)
              kMaxIndexedVertexCnt); [inversion H|].
  inversion H; subst this'; clear H. cbn.
  repeat (split; [first [reflexivity | assumption]|]).
  exists p1, p2. auto.
Qed.

(** The legality conditions are also sufficient. *)
Lemma onCombineIfPossible_legal (this that : MSAAPathOp) (caps : GrCaps)
    (this_pipeline that_pipeline : GrPipeline) :
  pipeline this = Some this_pipeline ->
  pipeline that = Some that_pipeline ->
  CanCombine this_pipeline (bounds this) that_pipeline (bounds that) caps = true ->
  cheapEqualTo (fViewMatrix this) (fViewMatrix that) = true ->
  INT_MIN <= fMaxLineVertices this + fMaxLineVertices that <= kMaxIndexedVertexCnt ->
  INT_MIN <= fMaxQuadVertices this + fMaxQuadVertices that <= kMaxIndexedVertexCnt ->
  exists this', onCombineIfPossible this that caps = Some (true, this').
Proof.
  intros Hp1 Hp2 Hcan Heq Hl Hq.
  assert (Hk : kMaxIndexedVertexCnt <= INT_MAX) by (vm_compute; discriminate).
  unfold onCombineIfPossible, int_add.
  rewrite Hp1, Hp2, Hcan, Heq. cbn [negb].
  rewrite !int_of_in_range by lia.
  destruct (Z.gtb_spec (fMaxLineVertices this + fMaxLineVertices that)
              kMaxIndexedVertexCnt); [lia|].
  destruct (Z.gtb_spec (fMaxQuadVertices this + fMaxQuadVertices that)
              kMaxIndexedVertexCnt); [lia|].
  eexists. reflexivity.
Qed.

Lemma sum_of_app (f : MSAAPathOp -> Z) (xs ys : list MSAAPathOp) :
  sum_of f (xs ++ ys) = sum_of f xs + sum_of f ys.
Proof. induction xs as [|x xs IH]; cbn [sum_of app]; lia. Qed.

Lemma sum_of_Permutation (f : MSAAPathOp -> Z) (xs ys : list MSAAPathOp) :
  Permutation xs ys -> sum_of f xs = sum_of f ys.
Proof.
  induction 1; cbn [sum_of]; lia.
Qed.

(** Whatever the order, a merge that goes through leaves the sums of the
    counts of the batches it started from. *)
Lemma merge_in_order_totals (caps : GrCaps) (order : MergeOrder) (result : MSAAPathOp) :
  merge_in_order caps order = Some (Some result) ->
  fMaxLineVertices result = sum_of fMaxLineVertices (batches order)
  /\ fMaxQuadVertices result = sum_of fMaxQuadVertices (batches order)
  /\ fPaths result = flat_map fPaths (batches order).
Proof.
  revert result. induction order as [op|absorbing IH1 absorbed IH2]; intros result H.
  - inversion H; subst. cbn [batches sum_of flat_map]. rewrite app_nil_r.
    repeat split; lia.
  - cbn [merge_in_order] in H.
    destruct (merge_in_order caps absorbing) as [this|]; [|discriminate].
    destruct (merge_in_order caps absorbed) as [that|]; [|discriminate].
    destruct this as [this|], that as [that|]; try discriminate.
    destruct (onCombineIfPossible this that caps) as [[merged this']|] eqn:Hmerge;
      [|discriminate].
    destruct merged; [|discriminate]. inversion H; subst this'; clear H.
    apply onCombineIfPossible_merged in Hmerge.
    destruct Hmerge as (Hl & Hq & Hp & _).
    destruct (IH1 this eq_refl) as (Hl1 & Hq1 & Hp1).
    destruct (IH2 that eq_refl) as (Hl2 & Hq2 & Hp2).
    cbn [batches]. rewrite !sum_of_app, flat_map_app.
    repeat split; congruence.
Qed.

(** C8.  Let the batches [A], [B], [C] be merged in two orders (any two
    bracketings of any two arrangements of the three), every
    [onCombineIfPossible] on the way returning true.  The two results carry
    the same [fMaxLineVertices] and the same [fMaxQuadVertices], the sums over
    [A], [B], [C].  And a merge that returns true has summed the two counts,
    appended the absorbed paths, joined the bounds and set [fIsIndexed],
    having found the pipelines combinable, the view matrices equal and both
    sums within [kMaxIndexedVertexCnt]. *)
Theorem merge_totals_order_independent
    (caps : GrCaps) (A B C : MSAAPathOp) (order1 order2 : MergeOrder)
    (result1 result2 : MSAAPathOp) :
  Permutation (batches order1) [A; B; C] ->
  Permutation (batches order2) [A; B; C] ->
  merge_in_order caps order1 = Some (Some result1) ->
  merge_in_order caps order2 = Some (Some result2) ->
  fMaxLineVertices result1 = fMaxLineVertices result2
  /\ fMaxQuadVertices result1 = fMaxQuadVertices result2
  /\ fMaxLineVertices result1
     = fMaxLineVertices A + fMaxLineVertices B + fMaxLineVertices C
  /\ fMaxQuadVertices result1
     = fMaxQuadVertices A + fMaxQuadVertices B + fMaxQuadVertices C
  /\ (forall this that this',
        onCombineIfPossible this that caps = Some (true, this') ->
        fMaxLineVertices this' = fMaxLineVertices this + fMaxLineVertices that
        /\ fMaxQuadVertices this' = fMaxQuadVertices this + fMaxQuadVertices that
        /\ fPaths this' = fPaths this ++ fPaths that
        /\ bounds this' = joinBounds (bounds this) (bounds that)
        /\ fIsIndexed this' = true
        /\ fMaxLineVertices this' <= kMaxIndexedVertexCnt
        /\ fMaxQuadVertices this' <= kMaxIndexedVertexCnt
        /\ cheapEqualTo (fViewMatrix this) (fViewMatrix that) = true).
Proof.
  intros Hperm1 Hperm2 Hrun1 Hrun2.
  apply merge_in_order_totals in Hrun1, Hrun2.
  destruct Hrun1 as (Hl1 & Hq1 & _), Hrun2 as (Hl2 & Hq2 & _).
  rewrite (sum_of_Permutation fMaxLineVertices _ _ Hperm1) in Hl1.
  rewrite (sum_of_Permutation fMaxQuadVertices _ _ Hperm1) in Hq1.
  rewrite (sum_of_Permutation fMaxLineVertices _ _ Hperm2) in Hl2.
  rewrite (sum_of_Permutation fMaxQuadVertices _ _ Hperm2) in Hq2.
  cbn [sum_of] in *.
  repeat (split; [lia|]).
  intros this that this' Hmerge.
  apply onCombineIfPossible_merged in Hmerge.
  destruct Hmerge as (Hl & Hq & Hp & Hb & Hi & _ & Hlk & Hqk & Heq & _).
  repeat split; try assumption; lia.
Qed.

End Merging.

End RendererProofs.

(* ====================================================================== *)
(** ** Properties: the coverage identity                                   *)
(* ====================================================================== *)

Module CoverageTweakProofs.

Import CoverageTweak.
Local Open Scope R_scope.

Lemma RGB_eq (a b : RGB) :
  red a = red b -> green a = green b -> blue a = blue b -> a = b.
Proof. destruct a, b; simpl; intros; subst; reflexivity. Qed.

(** [f*Sca / (f*Sa) = Sca / Sa] for [f <> 0]. *)
Lemma over_scale (f a : R) (c : RGB) :
  f <> 0 -> a <> 0 -> over (scale f c) (f * a) = over c a.
Proof.
  intros Hf Ha. apply RGB_eq; simpl; field; auto.
Qed.

Lemma premultiplied_zero (c : RGB) :
  premultiplied c 0 -> red c = 0 /\ green c = 0 /\ blue c = 0.
Proof. unfold premultiplied. intros (Hr & Hg & Hb). repeat split; lra. Qed.

(** The identity needs of its inputs only that a destination of alpha zero
    has colour zero. *)
Lemma blend_tweak (B : RGB -> RGB -> RGB) (f Sa Da : R) (Sca Dca : RGB) :
  (Da = 0 -> red Dca = 0 /\ green Dca = 0 /\ blue Dca = 0) ->
  blend B (scale f Sca) Dca (f * Sa) Da = coverage_modulated B f Sca Dca Sa Da.
Proof.
  intros Hzero. unfold coverage_modulated, blend.
  destruct (Req_dec_T Sa 0) as [HSa|HSa].
  - (* Sa = 0 *)
    destruct (Req_dec_T (f * Sa) 0) as [_|Hne]; [|exfalso; apply Hne; subst; ring].
    apply RGB_eq; simpl; ring.
  - destruct (Req_dec_T f 0) as [Hf|Hf].
    + (* f = 0 *)
      destruct (Req_dec_T (f * Sa) 0) as [_|Hne]; [|exfalso; apply Hne; subst; ring].
      subst f. apply RGB_eq; simpl; ring.
    + destruct (Req_dec_T (f * Sa) 0) as [Heq|_].
      { exfalso. apply Rmult_integral in Heq. tauto. }
      destruct (Req_dec_T Da 0) as [HDa|HDa].
      * (* Da = 0 *)
        destruct (Hzero HDa) as (Hr & Hg & Hb).
        apply RGB_eq; simpl; rewrite ?Hr, ?Hg, ?Hb; ring.
      * (* general case *)
        rewrite over_scale by assumption.
        apply RGB_eq; simpl; ring.
Qed.

(** C3.  For every operator [B], every coverage [f] in [[0,1]] and all
    premultiplied source and destination colours with alphas in [[0,1]],
    [blend(f*Sca, Dca, f*Sa, Da) = f * blend(Sca, Dca, Sa, Da) + (1-f) * Dca].
    The statement has no side condition on [Sa], [Da] or [f] being non-zero:
    the corner cases are instances of it. *)
Theorem coverage_tweak_identity
    (B : RGB -> RGB -> RGB) (f Sa Da : R) (Sca Dca : RGB) :
  0 <= f <= 1 ->
  premultiplied Sca Sa -> Sa <= 1 ->
  premultiplied Dca Da -> Da <= 1 ->
  blend B (scale f Sca) Dca (f * Sa) Da
  = add (scale f (blend B Sca Dca Sa Da)) (scale (1 - f) Dca).
Proof.
  intros _ _ _ HD _.
  change (add (scale f (blend B Sca Dca Sa Da)) (scale (1 - f) Dca))
    with (coverage_modulated B f Sca Dca Sa Da).
  apply blend_tweak. intros ->. now apply premultiplied_zero.
Qed.

Lemma coverage_tweak_identity_witness :
  blend B_grey (scale (1 / 2) src_example) dst_example (1 / 2 * (1 / 2)) 1
  = add (scale (1 / 2) (blend B_grey src_example dst_example (1 / 2) 1))
        (scale (1 - 1 / 2) dst_example).
Proof.
  apply coverage_tweak_identity;
    unfold premultiplied, src_example, dst_example; simpl; lra.
Defined.

(** The three corner cases, read off the identity. *)
Lemma coverage_tweak_corner_cases (B : RGB -> RGB -> RGB) (f Sa Da : R) (Sca Dca : RGB) :
  premultiplied Dca Da ->
  (Sa = 0 -> blend B (scale f Sca) Dca (f * Sa) Da = Dca)
  /\ (f = 0 -> blend B (scale f Sca) Dca (f * Sa) Da = Dca)
  /\ (Da = 0 -> Sa <> 0 -> f <> 0 -> blend B (scale f Sca) Dca (f * Sa) Da = scale f Sca).
Proof.
  intros HD. unfold blend. repeat split.
  - intros ->. destruct (Req_dec_T (f * 0) 0) as [_|Hne]; [reflexivity|].
    exfalso; apply Hne; ring.
  - intros ->. destruct (Req_dec_T (0 * Sa) 0) as [_|Hne]; [reflexivity|].
    exfalso; apply Hne; ring.
  - intros -> HSa Hf.
    destruct (Req_dec_T (f * Sa) 0) as [Heq|_].
    { exfalso. apply Rmult_integral in Heq. tauto. }
    destruct (Req_dec_T 0 0) as [_|Hne]; [reflexivity|congruence].
Qed.

(** The alpha channel obeys the same identity. *)
Lemma blend_alpha_tweak (f Sa Da : R) :
  blend_alpha (f * Sa) Da = f * blend_alpha Sa Da + (1 - f) * Da.
Proof. unfold blend_alpha. ring. Qed.

(** Without premultiplication the identity can fail at [Da = 0]. *)
Lemma blend_tweak_needs_premultiplied :
  let Dca := {| red := 1; green := 0; blue := 0 |} in
  blend B_grey (scale (1 / 2) src_example) Dca (1 / 2 * 1) 0
  <> coverage_modulated B_grey (1 / 2) src_example Dca 1 0.
Proof.
  cbv zeta. unfold coverage_modulated, blend.
  destruct (Req_dec_T (1 / 2 * 1) 0) as [Heq|_]; [lra|].
  destruct (Req_dec_T 1 0) as [Heq|_]; [lra|].
  destruct (Req_dec_T 0 0) as [_|Hne]; [|congruence].
  intros Heq. apply (f_equal red) in Heq. simpl in Heq. lra.
Qed.

End CoverageTweakProofs.

(* ====================================================================== *)
(** ** The renderer on the concrete instance                               *)
(* ====================================================================== *)

Module RendererExamples.

Import GrMSAAPathRenderer Example RendererProofs.

Lemma example_converters : Converters skia.
Proof.
  constructor; intros; cbn.
  - lia.
  - reflexivity.
  - reflexivity.
Qed.

(** The path [curvy]: 8 and 18 are counted, 7 and 15 vertices are written,
    the difference being the one conic. *)
Lemma worst_case_counts_bound_geometry_witness :
  exists lines' quads',
    createGeom (S := skia) no_lines no_quads curvy identity 7 true = Some (lines', quads')
    /\ l_nextVertex lines' - l_nextVertex no_lines <= 8
    /\ q_nextVertex quads' - q_nextVertex no_quads <= 18
    /\ 8 - (l_nextVertex lines' - l_nextVertex no_lines)
       = total verb_is_conic (Iter (Skia := skia) curvy)
    /\ 18 - (q_nextVertex quads' - q_nextVertex no_quads)
       = 3 * total verb_is_conic (Iter (Skia := skia) curvy).
Proof.
  apply (worst_case_counts_bound_geometry (HC := example_converters) curvy 1 8 18).
  reflexivity.
Defined.

Lemma curvy_counts :
  ComputeWorstCasePointCount (S := skia) curvy = Some (1, 8, 18)
  /\ option_map
       (fun lq => (length (l_vertices (fst lq)), length (q_vertices (snd lq)),
                   l_indices (fst lq), q_indices (snd lq)))
       (createGeom (S := skia) no_lines no_quads curvy identity 7 false)
     = Some (7%nat, 15%nat, [], []).
Proof. split; reflexivity. Qed.

(** The path with only a close verb: no line vertex counted, none written,
    and [onPrepareDraws] returns at once. *)
Lemma zero_line_count_has_zero_quad_count_witness :
  exists op,
    Make (S := skia) 7 empty_path identity (rect 0 0 0 0) = Some (Some op)
    /\ fMaxLineVertices op = 0
    /\ fMaxQuadVertices op = 0
    /\ forall target, onPrepareDraws op target = Some [].
Proof.
  destruct (zero_line_count_has_zero_quad_count (HC := example_converters)
              empty_path 1 0 eq_refl) as (_ & _ & _ & Hmake).
  apply Hmake.
Defined.

(** Two contours whose line count exceeds 65535 / 3 are rejected; with
    three line verbs fewer the count is at the limit. *)
Lemma Make_rejects_two_long_contours :
  Make (S := skia) 7 (two_contours (Z.to_nat 21845)) identity (rect 0 0 6 6) = Some None
  /\ ComputeWorstCasePointCount (S := skia) (two_contours (Z.to_nat 21845))
     = Some (2, 21848, 0)
  /\ ComputeWorstCasePointCount (S := skia) (two_contours (Z.to_nat 21842))
     = Some (2, 21845, 0).
Proof.
  split; [vm_compute; reflexivity|]. split; vm_compute; reflexivity.
Qed.

(** The triangle: a winding fill has two passes, the second over the
    bounding box of the triangle; its inverse fill has the second pass over
    the device bounds (here mapped back through the inverse of the view
    matrix). *)
Lemma triangle_winding_two_passes :
  internalDrawPath (S := skia) 100 100 7 "user"%string doubling
    (shape_of (triangle kWinding_FillType) false) false
  = Some (true,
          [ path_draw "gWindStencilSeparateWithWrap"%string triangle_op;
            rect_draw "gWindColorPass"%string 7 doubling (rect 0 0 4 3) identity ])
  /\ fMaxLineVertices triangle_op = 4 /\ fMaxQuadVertices triangle_op = 0.
Proof.
  split; [reflexivity|]. split; reflexivity.
Qed.

Lemma cover_pass_rectangle_witness :
  internalDrawPath (S := skia) 100 100 7 "user"%string doubling
    (shape_of (triangle kInverseWinding_FillType) false) false
  = Some (true,
          [ path_draw "gWindStencilSeparateWithWrap"%string (inverse_triangle_op doubling);
            rect_draw "gInvWindColorPass"%string 7 doubling (rect 0 0 50 50) identity ]).
Proof.
  destruct (cover_pass_rectangle (S := skia) 100 100 7 "user"%string doubling
              (shape_of (triangle kInverseWinding_FillType) false) false
              inverse_triangle_plan (inverse_triangle_op doubling)
              eq_refl eq_refl eq_refl)
    as (stencilPass & coverPass & Hpasses & _ & Hrun).
  inversion Hpasses; subst stencilPass coverPass.
  rewrite Hrun. reflexivity.
Defined.

(** C6 as stated fails.  Inverse winding fill of the triangle under the
    singular view matrix diag(0, 1, 1): the plan ends in the cover pass, the
    view matrix has no perspective and no inverse, and the draw returns
    false having added the stencil op alone; no rectangle over the device
    bounds is drawn. *)
Lemma cover_pass_singular_view_counterexample :
  let shape := shape_of (triangle kInverseWinding_FillType) false in
  internalDrawPath_plan (S := skia) "user"%string shape false = Plan inverse_triangle_plan
  /\ lastPassIsBounds inverse_triangle_plan = true
  /\ reverse inverse_triangle_plan = true
  /\ hasPerspective (Skia := skia) singular = false
  /\ invert (Skia := skia) singular = None
  /\ internalDrawPath (S := skia) 100 100 7 "user"%string singular shape false
     = Some (false,
             [ path_draw "gWindStencilSeparateWithWrap"%string
                 (inverse_triangle_op singular) ])
  /\ ~ (exists returned added color viewM rect localMatrix,
          internalDrawPath (S := skia) 100 100 7 "user"%string singular shape false
          = Some (returned,
                  added ++ [rect_draw "gInvWindColorPass"%string color viewM rect
                              localMatrix])).
Proof.
  cbv zeta.
  assert (Hrun : internalDrawPath (S := skia) 100 100 7 "user"%string singular
                   (shape_of (triangle kInverseWinding_FillType) false) false
                 = Some (false,
                         [ path_draw "gWindStencilSeparateWithWrap"%string
                             (inverse_triangle_op singular) ]))
    by reflexivity.
  split; [reflexivity|]. split; [reflexivity|]. split; [reflexivity|].
  split; [reflexivity|]. split; [reflexivity|]. split; [exact Hrun|].
  intros (returned & added & color & viewM & r & localMatrix & Heq).
  rewrite Hrun in Heq. inversion Heq as [[Hret Hadded]].
  change [path_draw "gWindStencilSeparateWithWrap"%string (inverse_triangle_op singular)]
    with ([] ++ [path_draw "gWindStencilSeparateWithWrap"%string
                   (inverse_triangle_op singular)]) in Hadded.
  apply app_inj_tail in Hadded. destruct Hadded as [_ Hlast].
  discriminate Hlast.
Qed.

(** With perspective the cover rectangle is the device bounds under the
    identity, the inverse being the local matrix. *)
Lemma cover_pass_perspective :
  let halving := {| ma := 1; mb := 1; mc := 1 # 2 |} in
  invert (Skia := skia) projective = Some halving
  /\ internalDrawPath (S := skia) 100 100 7 "user"%string projective
       (shape_of (triangle kInverseWinding_FillType) false) false
     = Some (true,
             [ path_draw "gWindStencilSeparateWithWrap"%string
                 (inverse_triangle_op projective);
               rect_draw "gInvWindColorPass"%string 7 identity (rect 0 0 100 100) halving ]).
Proof. cbv zeta. split; reflexivity. Qed.

(** [batch_A], [batch_B], [batch_C] merged as (A B) C and as C (B A). *)
Lemma merge_totals_order_independent_witness :
  fMaxLineVertices merged_AB_C = fMaxLineVertices merged_C_BA
  /\ fMaxQuadVertices merged_AB_C = fMaxQuadVertices merged_C_BA
  /\ fMaxLineVertices merged_AB_C
     = fMaxLineVertices batch_A + fMaxLineVertices batch_B + fMaxLineVertices batch_C
  /\ fMaxQuadVertices merged_AB_C
     = fMaxQuadVertices batch_A + fMaxQuadVertices batch_B + fMaxQuadVertices batch_C.
Proof.
  destruct (merge_totals_order_independent (S := skia) tt batch_A batch_B batch_C
              (Absorb (Absorb (Single batch_A) (Single batch_B)) (Single batch_C))
              (Absorb (Single batch_C) (Absorb (Single batch_B) (Single batch_A)))
              merged_AB_C merged_C_BA
              (Permutation_refl _)
              (Permutation_sym (Permutation_rev [batch_A; batch_B; batch_C]))
              eq_refl eq_refl)
    as (Hl & Hq & Hl3 & Hq3 & _).
  split; [exact Hl|]. split; [exact Hq|]. split; [exact Hl3|exact Hq3].
Defined.

Lemma merge_orders_run :
  merge_in_order (S := skia) tt
    (Absorb (Absorb (Single batch_A) (Single batch_B)) (Single batch_C))
  = Some (Some merged_AB_C)
  /\ merge_in_order (S := skia) tt
       (Absorb (Single batch_C) (Absorb (Single batch_B) (Single batch_A)))
     = Some (Some merged_C_BA).
Proof. split; reflexivity. Qed.

(** A merge that would pass 65535 / 3 line vertices is refused and leaves
    the batch as it was. *)
Lemma merge_refused_over_capacity :
  onCombineIfPossible (S := skia) (batch curvy 21000 0) (batch curvy 846 0) tt
  = Some (false, batch curvy 21000 0).
Proof. reflexivity. Qed.

(** C4 as stated fails.  The triangle with a fill value outside the
    enumeration, known to be convex: the fill value is never looked at, one
    pass is planned and drawn under the caller's stencil settings, and the
    draw returns true.  An unrecognized fill value is thus no failure of
    every draw.  Not known to be convex, the same path reaches the
    [default:] label, and the draw returns false with nothing added. *)
Lemma unknown_fill_convex_counterexample :
  getFillType (Skia := skia) (asPath unknown_fill_convex) = FillType_other 7
  /\ internalDrawPath (S := skia) 100 100 7 "user"%string doubling unknown_fill_convex false
     = Some (true, [single_draw "user"%string unknown_fill_op])
  /\ internalDrawPath (S := skia) 100 100 7 "user"%string doubling unknown_fill_concave
       false
     = Some (false, [])
  /\ ~ (forall (shape : GrShape (S := skia)) (raw : Z),
          getFillType (asPath shape) = FillType_other raw ->
          forall ok added,
            internalDrawPath (S := skia) 100 100 7 "user"%string doubling shape false
            = Some (ok, added) ->
            ok = false).
Proof.
  assert (Hrun : internalDrawPath (S := skia) 100 100 7 "user"%string doubling
                   unknown_fill_convex false
                 = Some (true, [single_draw "user"%string unknown_fill_op]))
    by reflexivity.
  split; [reflexivity|]. split; [exact Hrun|]. split; [reflexivity|].
  intros H. specialize (H unknown_fill_convex 7 eq_refl _ _ Hrun). discriminate H.
Qed.

End RendererExamples.

(* ====================================================================== *)
(** ** Further properties: the blend compositor                            *)
(* ====================================================================== *)

Module XfermodeMore.

Import GrCustomXfermode.

(** On three low bits and a value shifted past them, [lor] adds. *)
Lemma lor_low3_shiftl3 (k m : Z) :
  0 <= k < 8 -> 0 <= m -> Z.lor k (Z.shiftl m 3) = k + 8 * m.
Proof.
  intros Hk Hm.
  assert (Hland : Z.land k (Z.shiftl m 3) = 0).
  { apply Z.bits_inj'. intros n Hn. rewrite Z.land_spec, Z.bits_0.
    destruct (Z.ltb_spec n 3) as [Hlt|Hge].
    - rewrite (Z.shiftl_spec_low m 3 n Hlt). apply andb_false_r.
    - assert (Hbit : Z.testbit k n = false).
      { destruct (Z.eq_dec k 0) as [->|Hnz]; [apply Z.bits_0|].
        apply Z.bits_above_log2; [lia|].
        assert (Z.log2 k < 3) by (apply Z.log2_lt_pow2; simpl; lia). lia. }
      now rewrite Hbit. }
  rewrite <- Z.lxor_lor by exact Hland.
  rewrite <- Z.add_nocarry_lxor by exact Hland.
  rewrite Z.shiftl_mul_pow2 by lia. change (2 ^ 3) with 8. lia.
Qed.

(** The key as a number: the interaction class in the low three bits when
    there is a hardware equation, the mode above them when the shader must
    know it. *)
Lemma GenKey_value {D} (xp : CustomXP D) (caps : GrShaderCaps) :
  0 < advBlendEqInteraction caps < 8 ->
  0 <= fMode xp < 2 ^ 29 ->
  GenKey xp caps
  = (if hasHWBlendEquation xp then advBlendEqInteraction caps else 0)
    + 8 * (if negb (hasHWBlendEquation xp) || mustEnableSpecificAdvBlendEqs caps
           then fMode xp else 0).
Proof.
  intros Hi Hm. unfold GenKey, mode.
  assert (H32 : 2 ^ 32 = 8 * 2 ^ 29) by reflexivity.
  destruct (hasHWBlendEquation xp); cbn [negb orb].
  - rewrite Z.lor_0_l. rewrite (Z.mod_small (advBlendEqInteraction caps)) by lia.
    destruct (mustEnableSpecificAdvBlendEqs caps).
    + rewrite lor_low3_shiftl3 by lia. apply Z.mod_small. lia.
    + lia.
  - rewrite lor_low3_shiftl3 by lia. rewrite Z.mod_small; lia.
Qed.

(** X3.  [GLCustomXP::GenKey] tells apart what the shader depends on.  Under
    one set of shader capabilities (interaction class in 1..7, which the
    [SkASSERT] and the static assertion of [GenKey] ensure) two processors
    with the same key agree on having a hardware equation, and agree on the
    mode whenever the shader is generated from the mode: without a hardware
    equation, or when specific equations must be enabled. *)
Theorem GenKey_separates {D} (a b : CustomXP D) (caps : GrShaderCaps) :
  0 < advBlendEqInteraction caps < 8 ->
  0 <= fMode a < 2 ^ 29 ->
  0 <= fMode b < 2 ^ 29 ->
  GenKey a caps = GenKey b caps ->
  hasHWBlendEquation a = hasHWBlendEquation b
  /\ (hasHWBlendEquation a = false \/ mustEnableSpecificAdvBlendEqs caps = true ->
      fMode a = fMode b).
Proof.
  intros Hi Ha Hb Hkey.
  rewrite (GenKey_value a caps Hi Ha), (GenKey_value b caps Hi Hb) in Hkey.
  destruct (hasHWBlendEquation a), (hasHWBlendEquation b);
    destruct (mustEnableSpecificAdvBlendEqs caps); cbn [negb orb] in Hkey;
    (split; [try reflexivity; lia | intros [Hc|Hc]; try discriminate Hc; lia]).
Qed.

Lemma GenKey_separates_witness :
  hasHWBlendEquation (DstTexture := unit) (CustomXP_hw 15 5)
  = hasHWBlendEquation (DstTexture := unit) (CustomXP_hw 15 4)
  /\ (hasHWBlendEquation (DstTexture := unit) (CustomXP_hw 15 5) = false \/ true = true ->
      15 = 15).
Proof.
  apply (GenKey_separates (D := unit) (CustomXP_hw 15 5) (CustomXP_hw 15 4)
           {| advBlendEqInteraction := 1; mustEnableSpecificAdvBlendEqs := true |});
    cbn; try lia; reflexivity.
Defined.

Lemma onIsEqual_interchangeable_witness :
  hasHWBlendEquation (DstTexture := unit) (CustomXP_dst None false 20)
  = hasHWBlendEquation (DstTexture := unit) (CustomXP_dst None true 20).
Proof.
  apply (XfermodeProofs.onIsEqual_interchangeable
           (CustomXP_dst (DstTexture := unit) None false 20)
           (CustomXP_dst (DstTexture := unit) None true 20)).
  reflexivity.
Defined.

(** X4.  What the factory announces is what the processor it creates does:
    [onWillReadDstColor] is the [willReadDstColor] of the processor
    [onCreateXferProcessor] returns for the same capabilities and analysis,
    whatever the mixed-samples flag and the destination texture. *)
Theorem onWillReadDstColor_agrees {D} (f : CustomXPFactory) (caps : GrCaps)
    (analysis : GrPipelineAnalysis) (hasMixedSamples : bool) (dstTexture : option D) :
  onWillReadDstColor f caps analysis
  = willReadDstColor (onCreateXferProcessor f caps analysis hasMixedSamples dstTexture)
  /\ mode (onCreateXferProcessor f caps analysis hasMixedSamples dstTexture) = xpf_fMode f.
Proof.
  unfold onWillReadDstColor, onCreateXferProcessor.
  destruct (can_use_hw_blend_equation _ _ _); split; reflexivity.
Qed.

(** X5.  A processor that reads the destination asks for no blend barrier,
    never drops coverage, and leaves the blend equation of the pipeline
    alone, whatever the backend. *)
Theorem dst_reading_processor_is_inert {D} (f : CustomXPFactory) (caps : GrCaps)
    (analysis : GrPipelineAnalysis) (hasMixedSamples : bool) (dstTexture : option D) :
  let xp := onCreateXferProcessor f caps analysis hasMixedSamples dstTexture in
  willReadDstColor xp = true ->
  (forall caps', onXferBarrier xp caps' = kNone_GrXferBarrierType)
  /\ (forall analysis', kIgnoreCoverage_OptFlag (onGetOptimizations xp analysis') = false)
  /\ (forall fEquation, onGetBlendInfo xp fEquation = fEquation).
Proof.
  unfold onCreateXferProcessor.
  destruct (can_use_hw_blend_equation _ _ _); cbn zeta; intros Hread.
  - discriminate Hread.
  - repeat split.
Qed.

Lemma dst_reading_processor_is_inert_witness :
  willReadDstColor
    (onCreateXferProcessor (DstTexture := unit) (Numbering.factory 20)
       (Numbering.caps_answering true) Numbering.plain_analysis false None) = true
  /\ onGetBlendInfo
       (onCreateXferProcessor (DstTexture := unit) (Numbering.factory 20)
          (Numbering.caps_answering true) Numbering.plain_analysis false None) 5
     = 5.
Proof.
  split; [reflexivity|].
  destruct (dst_reading_processor_is_inert (D := unit) (Numbering.factory 20)
              (Numbering.caps_answering true) Numbering.plain_analysis false None
              eq_refl) as (_ & _ & Hblend).
  apply Hblend.
Defined.

(** X6.  For a factory that [MakeXPFactory] returns, every processor it creates
    passes the assertion of [createGLSLInstance] (it reads the destination
    exactly when it has no hardware equation), and a hardware equation it
    reports through [onGetBlendInfo] is an advanced one: at least
    [kOverlay_GrBlendEquation] and below the count that the static assertion
    of [hw_blend_equation] fixes.  The enumerations are assumed to put
    [kOverlay] right after [kLastCoeffMode] or before, and the equations at
    non-negative values. *)
Theorem created_processor_well_formed {D}
    (kLastCoeffMode kLastMode kOverlay kOverlay_GrBlendEquation kGrBlendEquationCnt : Z)
    (mode : Z) (f : CustomXPFactory) (caps : GrCaps) (analysis : GrPipelineAnalysis)
    (hasMixedSamples : bool) (dstTexture : option D) :
  kOverlay <= kLastCoeffMode + 1 ->
  0 <= kOverlay_GrBlendEquation ->
  kGrBlendEquationCnt = kLastMode + 1 + kOffset kOverlay kOverlay_GrBlendEquation ->
  MakeXPFactory kLastCoeffMode kLastMode kOverlay kOverlay_GrBlendEquation mode = Some f ->
  let xp := onCreateXferProcessor f caps analysis hasMixedSamples dstTexture in
  createGLSLInstance_asserts xp = true
  /\ (hasHWBlendEquation xp = true ->
      forall fEquation,
        kOverlay_GrBlendEquation <= onGetBlendInfo xp fEquation < kGrBlendEquationCnt).
Proof.
  intros Hov Heq0 Hcnt Hmake. unfold MakeXPFactory in Hmake.
  destruct (IsSupportedMode kLastCoeffMode kLastMode mode) eqn:Hs;
    cbn [negb] in Hmake; [|discriminate].
  inversion Hmake; subst f; clear Hmake.
  apply XfermodeProofs.IsSupportedMode_true_iff in Hs.
  assert (Hne : hw_blend_equation kOverlay kOverlay_GrBlendEquation mode <> -1)
    by (apply XfermodeProofs.hw_blend_equation_advanced; lia).
  unfold onCreateXferProcessor, CustomXPFactory_new; cbn [xpf_fMode xpf_fHWBlendEquation].
  destruct (can_use_hw_blend_equation _ _ _); cbn zeta;
    unfold createGLSLInstance_asserts, onGetBlendInfo, hasHWBlendEquation,
      willReadDstColor, CustomXP_hw, CustomXP_dst;
    cbn [fHWBlendEquation xp_base base_willReadDstColor].
  - destruct (Z.eqb_spec (-1) (hw_blend_equation kOverlay kOverlay_GrBlendEquation mode))
      as [Heq|_]; [congruence|].
    split; [reflexivity|]. intros _ fEquation. cbn [negb].
    unfold hw_blend_equation, kOffset in *. lia.
  - split; [reflexivity|]. intros Hhw. discriminate Hhw.
Qed.

Lemma created_processor_well_formed_witness :
  createGLSLInstance_asserts
    (onCreateXferProcessor (DstTexture := unit) (Numbering.factory 27)
       (Numbering.caps_answering false) Numbering.plain_analysis false None) = true
  /\ (hasHWBlendEquation
        (onCreateXferProcessor (DstTexture := unit) (Numbering.factory 27)
           (Numbering.caps_answering false) Numbering.plain_analysis false None) = true ->
      forall fEquation,
        4 <= onGetBlendInfo
               (onCreateXferProcessor (DstTexture := unit) (Numbering.factory 27)
                  (Numbering.caps_answering false) Numbering.plain_analysis false None)
               fEquation < 18).
Proof.
  apply (created_processor_well_formed (D := unit) 14 28 15 4 18 27); try reflexivity;
    cbn; lia.
Defined.

(** Outside the supported modes the assertion can fail: the factory built
    for [kDstATop] (mode 10, whose "equation" is the [-1] that means none)
    yields, on a backend with hardware equations that refuses none, a
    processor that neither reads the destination nor has a hardware
    equation. *)
Lemma createGLSLInstance_asserts_needs_supported_mode :
  IsSupportedMode Numbering.kLastCoeffMode Numbering.kLastMode 10 = false
  /\ createGLSLInstance_asserts
       (onCreateXferProcessor (DstTexture := unit) (Numbering.factory 10)
          (Numbering.caps_answering false) Numbering.plain_analysis false None) = false.
Proof. split; reflexivity. Qed.

(** X7.  Factories built by the constructor that compare equal create, under
    the same capabilities and analysis, processors that compare equal: the
    factory compares the mode alone, and the equation follows from it. *)
Theorem equal_factories_create_equal_processors {D}
    (kOverlay kOverlay_GrBlendEquation mode1 mode2 : Z)
    (caps : GrCaps) (analysis : GrPipelineAnalysis)
    (mixed1 mixed2 : bool) (dst1 dst2 : option D) :
  let f1 := CustomXPFactory_new kOverlay kOverlay_GrBlendEquation mode1 in
  let f2 := CustomXPFactory_new kOverlay kOverlay_GrBlendEquation mode2 in
  CustomXPFactory_onIsEqual f1 f2 = true ->
  onIsEqual (onCreateXferProcessor f1 caps analysis mixed1 dst1)
            (onCreateXferProcessor f2 caps analysis mixed2 dst2) = true.
Proof.
  cbn zeta. unfold CustomXPFactory_onIsEqual, CustomXPFactory_new.
  cbn [xpf_fMode]. intros Heq. apply Z.eqb_eq in Heq. subst mode2.
  unfold onCreateXferProcessor; cbn [xpf_fMode xpf_fHWBlendEquation].
  destruct (can_use_hw_blend_equation _ _ _); unfold onIsEqual, CustomXP_hw, CustomXP_dst;
    cbn [fMode fHWBlendEquation]; now rewrite !Z.eqb_refl.
Qed.

Lemma equal_factories_create_equal_processors_witness :
  onIsEqual
    (onCreateXferProcessor (DstTexture := unit) (Numbering.factory 20)
       (Numbering.caps_answering false) Numbering.plain_analysis true None)
    (onCreateXferProcessor (DstTexture := unit) (Numbering.factory 20)
       (Numbering.caps_answering false) Numbering.plain_analysis false (Some tt)) = true.
Proof.
  apply (equal_factories_create_equal_processors (D := unit) 15 4 20 20).
  reflexivity.
Defined.

(** X8.  [TestCreate] builds its factory without going through
    [MakeXPFactory].  When the random source keeps to the range it is asked
    for and the enumeration has
    [kLastCoeffMode < kLastSeparableMode <= kLastMode], the mode drawn passes
    the assertion of the constructor, and it is always a separable one: the
    modes above [kLastSeparableMode] are never drawn. *)
Theorem TestCreate_mode
    (kLastCoeffMode kLastSeparableMode kLastMode kOverlay kOverlay_GrBlendEquation : Z)
    (nextRangeU : Z -> Z -> Z) :
  (forall lo hi, lo <= hi -> lo <= nextRangeU lo hi <= hi) ->
  kLastCoeffMode < kLastSeparableMode <= kLastMode ->
  let f := TestCreate kLastCoeffMode kLastSeparableMode kOverlay kOverlay_GrBlendEquation
             nextRangeU in
  IsSupportedMode kLastCoeffMode kLastMode (xpf_fMode f) = true
  /\ is_separable_mode kLastSeparableMode (xpf_fMode f) = true
  /\ MakeXPFactory kLastCoeffMode kLastMode kOverlay kOverlay_GrBlendEquation (xpf_fMode f)
     = Some f.
Proof.
  intros Hrange Hlayout. cbn zeta.
  unfold TestCreate, CustomXPFactory_new; cbn [xpf_fMode].
  specialize (Hrange (kLastCoeffMode + 1) kLastSeparableMode ltac:(lia)).
  assert (Hs : IsSupportedMode kLastCoeffMode kLastMode
                 (nextRangeU (kLastCoeffMode + 1) kLastSeparableMode) = true)
    by (apply XfermodeProofs.IsSupportedMode_true_iff; lia).
  split; [exact Hs|]. split.
  - unfold is_separable_mode. apply Z.leb_le. lia.
  - unfold MakeXPFactory. rewrite Hs. reflexivity.
Qed.

Lemma TestCreate_mode_witness :
  IsSupportedMode 14 28 (xpf_fMode (TestCreate 14 24 15 4 (fun lo _ => lo))) = true.
Proof.
  apply (TestCreate_mode 14 24 28 15 4 (fun lo _ => lo)); intros; lia.
Defined.

End XfermodeMore.

(* ====================================================================== *)
(** ** Further properties: the MSAA path renderer                          *)
(* ====================================================================== *)

Module RendererMore.

Import GrMSAAPathRenderer RendererProofs.

(** *** Filling only appends *)

Lemma concat_repeat_app {A} (t : list A) (j k : nat) :
  concat (repeat t j) ++ concat (repeat t k) = concat (repeat t (j + k)).
Proof.
  induction j as [|j IH]; cbn [repeat concat Nat.add app]; [reflexivity|].
  now rewrite <- app_assoc, IH.
Qed.

Lemma appended_refl color isIndexed lq : appended color isIndexed lq lq.
Proof.
  exists [], [], [], [], 0%nat. rewrite !app_nil_r.
  repeat split; auto. destruct isIndexed; auto.
Qed.

Lemma appended_trans color isIndexed a b c :
  appended color isIndexed a b -> appended color isIndexed b c ->
  appended color isIndexed a c.
Proof.
  intros (lv1 & li1 & qv1 & qi1 & k1 & Ha1 & Ha2 & Ha3 & Ha4 & Ha5 & Ha6 & Ha7 & Ha8 & Ha9)
         (lv2 & li2 & qv2 & qi2 & k2 & Hb1 & Hb2 & Hb3 & Hb4 & Hb5 & Hb6 & Hb7 & Hb8 & Hb9).
  exists (lv1 ++ lv2), (li1 ++ li2), (qv1 ++ qv2), (qi1 ++ qi2), (k1 + k2)%nat.
  rewrite Hb1, Hb2, Hb3, Hb4, Ha1, Ha2, Ha3, Ha4, <- !app_assoc.
  repeat split.
  - apply Forall_app; auto.
  - apply Forall_app; auto.
  - rewrite map_app, Ha7, Hb7. apply concat_repeat_app.
  - rewrite !length_app. lia.
  - destruct isIndexed.
    + rewrite !length_app. lia.
    + destruct Ha9 as [-> ->], Hb9 as [-> ->]. auto.
Qed.

Lemma add_quad_appended lines quads pts color isIndexed start lines' quads' :
  add_quad lines quads pts color isIndexed start = Some (lines', quads') ->
  appended color isIndexed (lines, quads) (lines', quads').
Proof.
  destruct pts as [|p0 [|p1 [|p2 rest]]]; unfold add_quad; simpl nth_error;
    try discriminate.
  cbv zeta. intros H. inversion H; subst; clear H.
  unfold appended, l_push, append_contour_edge_indices. cbn [fst snd].
  destruct isIndexed; [destruct (_ >? _)|];
    cbn [l_vertices l_indices q_vertices q_indices].
  - eexists _, _, _, _, 1%nat.
    repeat (split; [reflexivity|]).
    repeat split; try (repeat constructor); cbn; lia.
  - eexists _, [], _, _, 1%nat. rewrite (app_nil_r (l_indices lines)).
    repeat (split; [reflexivity|]).
    repeat split; try (repeat constructor); cbn; lia.
  - eexists _, [], _, [], 1%nat.
    rewrite (app_nil_r (l_indices lines)), (app_nil_r (q_indices quads)).
    repeat (split; [reflexivity|]).
    repeat split; try (repeat constructor); cbn; lia.
Qed.

Lemma add_quads_at_appended offsets pts color isIndexed start lq lq' :
  add_quads_at offsets pts color isIndexed start lq = Some lq' ->
  appended color isIndexed lq lq'.
Proof.
  revert lq. induction offsets as [|o rest IH]; intros lq H; cbn [add_quads_at] in H.
  - inversion H; subst. apply appended_refl.
  - destruct (add_quad (fst lq) (snd lq) (skipn o pts) color isIndexed start)
      as [[l1 q1]|] eqn:Hadd; [|discriminate].
    apply add_quad_appended in Hadd. apply IH in H.
    destruct lq as [l q]. eapply appended_trans; eassumption.
Qed.

Section Filling.
Context {S : Skia}.

Lemma createGeom_verb_appended color isIndexed (st st' : Geom) (verb : Verb) :
  createGeom_verb color isIndexed st verb = Some st' ->
  appended color isIndexed (g_lines st, g_quads st) (g_lines st', g_quads st').
Proof.
  destruct verb as [p0|p0 p1|p0 p1 p2|p0 p1 p2 w|p0 p1 p2 p3|];
    unfold createGeom_verb; cbv zeta; intros H.
  - inversion H; subst; clear H. cbn [g_lines g_quads].
    exists [ {| lv_fPosition := p0; lv_fColor := color |} ], [], [], [], 0%nat.
    rewrite !app_nil_r. cbn [fst snd l_push l_vertices l_indices].
    repeat split; try (repeat constructor). destruct isIndexed; auto.
  - inversion H; subst; clear H. cbn [g_lines g_quads fst snd].
    unfold appended, l_push, append_contour_edge_indices. cbn [fst snd].
    destruct isIndexed; [destruct (_ >? _)|];
      cbn [l_vertices l_indices q_vertices q_indices].
    + eexists _, _, [], [], 0%nat.
      repeat (split; [first [reflexivity | symmetry; apply app_nil_r]|]).
      repeat split; try (repeat constructor); cbn; lia.
    + eexists _, [], [], [], 0%nat.
      repeat (split; [first [reflexivity | symmetry; apply app_nil_r]|]).
      repeat split; try (repeat constructor); cbn; lia.
    + eexists _, [], [], [], 0%nat.
      repeat (split; [first [reflexivity | symmetry; apply app_nil_r]|]).
      repeat split; try (repeat constructor); cbn; lia.
  - destruct (add_quad _ _ _ _ _ _) as [[l' q']|] eqn:Hadd; [|discriminate].
    inversion H; subst; clear H. now apply add_quad_appended in Hadd.
  - destruct (add_quads_at _ _ _ _ _ _) as [[l' q']|] eqn:Hadd; [|discriminate].
    inversion H; subst; clear H. now apply add_quads_at_appended in Hadd.
  - destruct (add_quads_at _ _ _ _ _ _) as [[l' q']|] eqn:Hadd; [|discriminate].
    inversion H; subst; clear H. now apply add_quads_at_appended in Hadd.
  - inversion H; subst; clear H. apply appended_refl.
Qed.

Lemma createGeom_loop_appended color isIndexed (verbs : list Verb) (st st' : Geom) :
  createGeom_loop color isIndexed verbs st = Some st' ->
  appended color isIndexed (g_lines st, g_quads st) (g_lines st', g_quads st').
Proof.
  revert st. induction verbs as [|verb rest IH]; intros st H; cbn [createGeom_loop] in H.
  - inversion H; subst. apply appended_refl.
  - destruct (createGeom_verb color isIndexed st verb) as [st1|] eqn:Hstep; [|discriminate].
    apply createGeom_verb_appended in Hstep. apply IH in H.
    eapply appended_trans; eassumption.
Qed.

(** [createGeom] in terms of [appended]. *)
Lemma createGeom_appended
    (lines : MSAALineVertices) (quads : MSAAQuadVertices) (path : SkPath) (m : SkMatrix)
    (color : SkColor) (isIndexed : bool) (lines' : MSAALineVertices)
    (quads' : MSAAQuadVertices) :
  createGeom lines quads path m color isIndexed = Some (lines', quads') ->
  appended color isIndexed (lines, quads) (lines', quads').
Proof.
  unfold createGeom. intros H.
  destruct (createGeom_loop _ _ _ _) as [st|] eqn:Hrun; [|discriminate].
  inversion H; subst; clear H.
  apply createGeom_loop_appended in Hrun. exact Hrun.
Qed.

(** X9.  [createGeom] only appends: see [appended] for all that this says. *)
Theorem createGeom_appends
    (lines : MSAALineVertices) (quads : MSAAQuadVertices) (path : SkPath) (m : SkMatrix)
    (color : SkColor) (isIndexed : bool) (lines' : MSAALineVertices)
    (quads' : MSAAQuadVertices) :
  createGeom lines quads path m color isIndexed = Some (lines', quads') ->
  appended color isIndexed (lines, quads) (lines', quads').
Proof. apply createGeom_appended. Qed.

End Filling.

Lemma appended_grows color isIndexed a b :
  appended color isIndexed a b ->
  l_nextVertex (fst a) <= l_nextVertex (fst b)
  /\ q_nextVertex (snd a) <= q_nextVertex (snd b)
  /\ Z.of_nat (length (l_indices (fst b))) - Z.of_nat (length (l_indices (fst a)))
     <= 3 * (l_nextVertex (fst b) - l_nextVertex (fst a))
  /\ (isIndexed = false ->
      l_indices (fst b) = l_indices (fst a) /\ q_indices (snd b) = q_indices (snd a)).
Proof.
  intros (lv & li & qv & qi & k & H1 & H2 & H3 & H4 & _ & _ & _ & H8 & H9).
  unfold l_nextVertex, q_nextVertex. rewrite H1, H2, H3, H4, !length_app.
  split; [lia|]. split; [lia|]. split; [lia|].
  intros ->. destruct H9 as [-> ->]. now rewrite !app_nil_r.
Qed.

(** *** Indices name written vertices *)

Lemma uint16_t_small (z : Z) : 0 <= z < 65536 -> uint16_t z = z.
Proof. intros H. unfold uint16_t. now apply Z.mod_small. Qed.

Lemma uint16_t_range (z : Z) : 0 <= uint16_t z < 65536.
Proof. unfold uint16_t. apply Z.mod_pos_bound. reflexivity. Qed.

Lemma indices_in_range_push (lines : MSAALineVertices) (v : LineVertex) :
  indices_in_range lines -> indices_in_range (l_push lines v).
Proof.
  unfold indices_in_range, l_push, l_nextVertex. cbn [l_vertices l_indices].
  rewrite length_app. cbn [length].
  apply Forall_impl. intros i Hi. lia.
Qed.

(** The statements that [add_quad] and the line case of [createGeom] share:
    an edge of the fan, then the new vertex. *)
Lemma edge_then_push_in_range (lines : MSAALineVertices) (start : Z) (isIndexed : bool)
    (v : LineVertex) :
  indices_in_range lines ->
  0 <= start < l_nextVertex lines ->
  l_nextVertex lines + 1 <= 65536 ->
  indices_in_range
    (l_push
       (if isIndexed then
          let prevIdx := uint16_t (l_nextVertex lines - 1) in
          if prevIdx >? start
          then append_contour_edge_indices start prevIdx lines
          else lines
        else lines) v).
Proof.
  intros Hin Hstart Hmax. cbv zeta.
  rewrite (uint16_t_small (l_nextVertex lines - 1)) by lia.
  destruct isIndexed; [destruct (_ >? _) eqn:Hcmp|]; try now apply indices_in_range_push.
  apply Z.gtb_lt in Hcmp.
  unfold indices_in_range, l_push, append_contour_edge_indices, l_nextVertex in *.
  cbn [l_vertices l_indices]. rewrite length_app. cbn [length].
  apply Forall_app. split.
  - revert Hin. apply Forall_impl. intros i Hi. lia.
  - rewrite !uint16_t_small by lia. repeat constructor; lia.
Qed.

Lemma add_quad_in_range lines quads pts color isIndexed start lines' quads' :
  add_quad lines quads pts color isIndexed start = Some (lines', quads') ->
  indices_in_range lines ->
  0 <= start < l_nextVertex lines ->
  l_nextVertex lines' <= 65536 ->
  indices_in_range lines' /\ 0 <= start < l_nextVertex lines'.
Proof.
  intros Hadd Hin Hstart Hmax.
  destruct (add_quad_counts lines quads pts color isIndexed start) as (l2 & q2 & Hadd' & Hl & _).
  { destruct pts as [|p0 [|p1 [|p2 rest]]]; unfold add_quad in Hadd;
      simpl nth_error in Hadd; try discriminate. simpl. lia. }
  rewrite Hadd in Hadd'. inversion Hadd'; subst l2 q2; clear Hadd'.
  split; [|lia].
  destruct pts as [|p0 [|p1 [|p2 rest]]]; unfold add_quad in Hadd;
    simpl nth_error in Hadd; try discriminate.
  cbv zeta in Hadd. inversion Hadd; subst; clear Hadd.
  apply edge_then_push_in_range; auto. lia.
Qed.

Lemma add_quads_at_in_range offsets pts color isIndexed start lq lq' :
  add_quads_at offsets pts color isIndexed start lq = Some lq' ->
  indices_in_range (fst lq) ->
  0 <= start < l_nextVertex (fst lq) ->
  l_nextVertex (fst lq') <= 65536 ->
  indices_in_range (fst lq') /\ 0 <= start < l_nextVertex (fst lq').
Proof.
  revert lq. induction offsets as [|o rest IH]; intros lq H Hin Hstart Hmax;
    cbn [add_quads_at] in H.
  - inversion H; subst. auto.
  - destruct (add_quad (fst lq) (snd lq) (skipn o pts) color isIndexed start)
      as [[l1 q1]|] eqn:Hadd; [|discriminate].
    pose proof (add_quads_at_appended _ _ _ _ _ _ _ H) as Hgrow.
    apply appended_grows in Hgrow. cbn [fst snd] in Hgrow.
    destruct (add_quad_in_range _ _ _ _ _ _ _ _ Hadd Hin Hstart) as [Hin1 Hstart1]; [lia|].
    apply (IH (l1, q1) H); auto.
Qed.

Section Indices.
Context {S : Skia}.

Lemma createGeom_verb_in_range color isIndexed (st st' : Geom) (verb : Verb) :
  createGeom_verb color isIndexed st verb = Some st' ->
  indices_in_range (g_lines st) ->
  0 <= g_subpathIdxStart st < l_nextVertex (g_lines st) ->
  l_nextVertex (g_lines st') <= 65536 ->
  indices_in_range (g_lines st')
  /\ 0 <= g_subpathIdxStart st' < l_nextVertex (g_lines st').
Proof.
  intros Hstep Hin Hstart Hmax.
  pose proof (createGeom_verb_appended _ _ _ _ _ Hstep) as Hgrow.
  apply appended_grows in Hgrow. cbn [fst snd] in Hgrow. destruct Hgrow as (Hn & _).
  destruct verb as [p0|p0 p1|p0 p1 p2|p0 p1 p2 w|p0 p1 p2 p3|];
    unfold createGeom_verb in Hstep; cbv zeta in Hstep.
  - inversion Hstep; subst; clear Hstep. cbn [g_lines g_subpathIdxStart] in *.
    split; [now apply indices_in_range_push|].
    unfold l_push, l_nextVertex in *. cbn [l_vertices] in *.
    rewrite length_app in *. cbn [length] in *.
    destruct (g_first st); cbn [negb]; [lia|].
    rewrite uint16_t_small; lia.
  - inversion Hstep; subst; clear Hstep. cbn [g_lines g_subpathIdxStart] in *.
    assert (Hn1 : l_nextVertex (g_lines st) + 1 <= 65536).
    { revert Hmax. unfold l_push, l_nextVertex.
      destruct isIndexed; [destruct (_ >? _)|]; cbn [l_vertices append_contour_edge_indices];
        rewrite length_app; cbn [length]; lia. }
    split; [now apply edge_then_push_in_range|].
    unfold l_push, l_nextVertex.
    destruct isIndexed; [destruct (_ >? _)|]; cbn [l_vertices append_contour_edge_indices];
      rewrite length_app; cbn [length]; unfold l_nextVertex in Hstart; lia.
  - destruct (add_quad _ _ _ _ _ _) as [[l' q']|] eqn:Hadd; [|discriminate].
    inversion Hstep; subst; clear Hstep. cbn [g_lines g_subpathIdxStart] in *.
    eapply add_quad_in_range; eauto.
  - destruct (add_quads_at _ _ _ _ _ _) as [[l' q']|] eqn:Hadd; [|discriminate].
    inversion Hstep; subst; clear Hstep. cbn [g_lines g_subpathIdxStart] in *.
    apply (add_quads_at_in_range _ _ _ _ _ _ _ Hadd); auto.
  - destruct (add_quads_at _ _ _ _ _ _) as [[l' q']|] eqn:Hadd; [|discriminate].
    inversion Hstep; subst; clear Hstep. cbn [g_lines g_subpathIdxStart] in *.
    apply (add_quads_at_in_range _ _ _ _ _ _ _ Hadd); auto.
  - inversion Hstep; subst; clear Hstep. cbn [g_lines g_subpathIdxStart]. auto.
Qed.

Lemma createGeom_loop_in_range color isIndexed (verbs : list Verb) (st st' : Geom) :
  createGeom_loop color isIndexed verbs st = Some st' ->
  indices_in_range (g_lines st) ->
  0 <= g_subpathIdxStart st < l_nextVertex (g_lines st) ->
  l_nextVertex (g_lines st') <= 65536 ->
  indices_in_range (g_lines st').
Proof.
  revert st. induction verbs as [|verb rest IH]; intros st H Hin Hstart Hmax;
    cbn [createGeom_loop] in H.
  - inversion H; subst. exact Hin.
  - destruct (createGeom_verb color isIndexed st verb) as [st1|] eqn:Hstep; [|discriminate].
    pose proof (createGeom_loop_appended _ _ _ _ _ H) as Hgrow.
    apply appended_grows in Hgrow. cbn [fst snd] in Hgrow. destruct Hgrow as (Hn & _).
    destruct (createGeom_verb_in_range _ _ _ _ _ Hstep Hin Hstart) as [Hin1 Hstart1]; [lia|].
    apply (IH st1 H); auto.
Qed.

(** Index validity is kept by [createGeom]. *)
Lemma createGeom_in_range
    (lines : MSAALineVertices) (quads : MSAAQuadVertices) (path : SkPath) (m : SkMatrix)
    (color : SkColor) (isIndexed : bool) (lines' : MSAALineVertices)
    (quads' : MSAAQuadVertices) :
  starts_with_move (Iter path) = true ->
  createGeom lines quads path m color isIndexed = Some (lines', quads') ->
  indices_in_range lines ->
  l_nextVertex lines' <= 65536 ->
  indices_in_range lines'.
Proof.
  unfold createGeom. intros Hmove H Hin Hmax.
  destruct (createGeom_loop _ _ _ _) as [st|] eqn:Hrun; [|discriminate].
  inversion H; subst; clear H.
  destruct (Iter path) as [|verb rest]; cbn [createGeom_loop] in Hrun.
  - inversion Hrun; subst. exact Hin.
  - destruct verb as [p0| | | | |]; try discriminate Hmove.
    cbn [createGeom_verb g_lines g_quads g_subpathIdxStart g_first negb] in Hrun.
    pose proof (createGeom_loop_appended _ _ _ _ _ Hrun) as Hgrow.
    apply appended_grows in Hgrow. cbn [fst snd g_lines] in Hgrow.
    destruct Hgrow as (Hn & _).
    apply (createGeom_loop_in_range _ _ _ _ _ Hrun); cbn [g_lines g_subpathIdxStart]; auto.
    + now apply indices_in_range_push.
    + revert Hn Hmax. unfold l_push, l_nextVertex. cbn [l_vertices].
      rewrite length_app. cbn [length]. intros Hn Hmax.
      rewrite uint16_t_small; lia.
Qed.

(** X10.  In the line index buffer every index names a vertex of the line vertex
    buffer.  [createGeom] keeps this, for a verb list that opens with a move
    verb (as those of [SkPath::Iter] do) and as long as the buffer ends up
    with no more than 65536 vertices, the reach of a [uint16_t]. *)
Theorem createGeom_indices_in_range
    (lines : MSAALineVertices) (quads : MSAAQuadVertices) (path : SkPath) (m : SkMatrix)
    (color : SkColor) (isIndexed : bool) (lines' : MSAALineVertices)
    (quads' : MSAAQuadVertices) :
  starts_with_move (Iter path) = true ->
  createGeom lines quads path m color isIndexed = Some (lines', quads') ->
  indices_in_range lines ->
  l_nextVertex lines' <= 65536 ->
  indices_in_range lines'.
Proof. apply createGeom_in_range. Qed.

(** *** The quad index buffer counts up *)

Lemma add_quad_sequential lines quads pts color start lines' quads' :
  add_quad lines quads pts color true start = Some (lines', quads') ->
  quad_indices_sequential quads ->
  q_nextVertex quads' <= 65536 ->
  quad_indices_sequential quads'.
Proof.
  destruct pts as [|p0 [|p1 [|p2 rest]]]; unfold add_quad; simpl nth_error;
    try discriminate.
  cbv zeta. intros H Hseq Hmax. inversion H; subst; clear H.
  unfold quad_indices_sequential, q_nextVertex in *. cbn [q_vertices q_indices] in *.
  rewrite length_app in *. cbn [length] in *.
  rewrite seq_app, map_app, <- Hseq. f_equal. cbn [seq map Nat.add].
  set (len := length (q_vertices quads)) in *.
  assert (Ho : uint16_t (uint16_t (Z.of_nat (len + 3)) - 3) = Z.of_nat len).
  { unfold uint16_t. rewrite Zminus_mod_idemp_l.
    replace (Z.of_nat (len + 3) - 3) with (Z.of_nat len) by lia.
    apply Z.mod_small. lia. }
  rewrite Ho. rewrite !uint16_t_small by lia. repeat f_equal; lia.
Qed.

Lemma add_quads_at_sequential offsets pts color start lq lq' :
  add_quads_at offsets pts color true start lq = Some lq' ->
  quad_indices_sequential (snd lq) ->
  q_nextVertex (snd lq') <= 65536 ->
  quad_indices_sequential (snd lq').
Proof.
  revert lq. induction offsets as [|o rest IH]; intros lq H Hseq Hmax;
    cbn [add_quads_at] in H.
  - inversion H; subst. exact Hseq.
  - destruct (add_quad (fst lq) (snd lq) (skipn o pts) color true start)
      as [[l1 q1]|] eqn:Hadd; [|discriminate].
    pose proof (add_quads_at_appended _ _ _ _ _ _ _ H) as Hgrow.
    apply appended_grows in Hgrow. cbn [fst snd] in Hgrow.
    apply (IH (l1, q1) H); auto.
    eapply add_quad_sequential; eauto. cbn [snd]. lia.
Qed.

Lemma createGeom_loop_sequential color (verbs : list Verb) (st st' : Geom) :
  createGeom_loop color true verbs st = Some st' ->
  quad_indices_sequential (g_quads st) ->
  q_nextVertex (g_quads st') <= 65536 ->
  quad_indices_sequential (g_quads st').
Proof.
  revert st. induction verbs as [|verb rest IH]; intros st H Hseq Hmax;
    cbn [createGeom_loop] in H.
  - inversion H; subst. exact Hseq.
  - destruct (createGeom_verb color true st verb) as [st1|] eqn:Hstep; [|discriminate].
    pose proof (createGeom_loop_appended _ _ _ _ _ H) as Hgrow.
    apply appended_grows in Hgrow. cbn [fst snd] in Hgrow.
    apply (IH st1 H); auto.
    destruct verb as [p0|p0 p1|p0 p1 p2|p0 p1 p2 w|p0 p1 p2 p3|];
      unfold createGeom_verb in Hstep; cbv zeta in Hstep.
    + inversion Hstep; subst. exact Hseq.
    + inversion Hstep; subst. exact Hseq.
    + destruct (add_quad _ _ _ _ _ _) as [[l' q']|] eqn:Hadd; [|discriminate].
      inversion Hstep; subst; clear Hstep. cbn [g_quads] in *.
      eapply add_quad_sequential; eauto. lia.
    + destruct (add_quads_at _ _ _ _ _ _) as [[l' q']|] eqn:Hadd; [|discriminate].
      inversion Hstep; subst; clear Hstep. cbn [g_quads] in *.
      apply (add_quads_at_sequential _ _ _ _ _ _ Hadd); cbn [snd]; auto. lia.
    + destruct (add_quads_at _ _ _ _ _ _) as [[l' q']|] eqn:Hadd; [|discriminate].
      inversion Hstep; subst; clear Hstep. cbn [g_quads] in *.
      apply (add_quads_at_sequential _ _ _ _ _ _ Hadd); cbn [snd]; auto. lia.
    + inversion Hstep; subst. exact Hseq.
Qed.

(** Sequential quad indices are kept by [createGeom]. *)
Lemma createGeom_sequential
    (lines : MSAALineVertices) (quads : MSAAQuadVertices) (path : SkPath) (m : SkMatrix)
    (color : SkColor) (lines' : MSAALineVertices) (quads' : MSAAQuadVertices) :
  createGeom lines quads path m color true = Some (lines', quads') ->
  quad_indices_sequential quads ->
  q_nextVertex quads' <= 65536 ->
  quad_indices_sequential quads'.
Proof.
  unfold createGeom. intros H Hseq Hmax.
  destruct (createGeom_loop _ _ _ _) as [st|] eqn:Hrun; [|discriminate].
  inversion H; subst; clear H.
  apply (createGeom_loop_sequential _ _ _ _ Hrun); auto.
Qed.

(** X11.  When indexed, [createGeom] keeps the quad index buffer equal to
    0, 1, 2, ... over the quad vertex buffer: three fresh consecutive
    indices per quad, with no wrap-around as long as the buffer ends up with
    no more than 65536 vertices. *)
Theorem createGeom_quad_indices_sequential
    (lines : MSAALineVertices) (quads : MSAAQuadVertices) (path : SkPath) (m : SkMatrix)
    (color : SkColor) (lines' : MSAALineVertices) (quads' : MSAAQuadVertices) :
  createGeom lines quads path m color true = Some (lines', quads') ->
  quad_indices_sequential quads ->
  q_nextVertex quads' <= 65536 ->
  quad_indices_sequential quads'.
Proof. apply createGeom_sequential. Qed.

End Indices.

(** *** Built ops and what [onPrepareDraws] draws for them *)

Section Preparing.
Context {S : Skia} {HC : Converters S}.

Lemma paths_total_app (f : Verb -> Z) (xs ys : list PathInfo) :
  paths_total f (xs ++ ys) = paths_total f xs + paths_total f ys.
Proof. induction xs as [|x xs IH]; cbn [paths_total app]; lia. Qed.

Lemma paths_total_nonneg (f : Verb -> Z) (paths : list PathInfo) :
  (forall verb, 0 <= f verb) -> 0 <= paths_total f paths.
Proof.
  intros Hf. induction paths as [|x xs IH]; cbn [paths_total]; [lia|].
  pose proof (total_nonneg f (Iter (fPath x)) Hf). lia.
Qed.

(** What every built op keeps. *)
Lemma Built_counts (op : MSAAPathOp) :
  Built op ->
  paths_total verb_line_vertices (fPaths op) <= fMaxLineVertices op
  /\ paths_total verb_quad_vertices (fPaths op) <= fMaxQuadVertices op
  /\ (fIsIndexed op = true ->
      fMaxLineVertices op <= kMaxIndexedVertexCnt
      /\ fMaxQuadVertices op <= kMaxIndexedVertexCnt)
  /\ (fIsIndexed op = false ->
      exists pathInfo,
        fPaths op = [pathInfo]
        /\ total verb_is_move (tl (Iter (fPath pathInfo))) = 0).
Proof.
  induction 1 as [color path viewMatrix devBounds op Hmake
                 | op p _ IH
                 | this that caps this' _ IH1 _ IH2 Hmerge].
  - unfold Make in Hmake.
    destruct (ComputeWorstCasePointCount path) as [[[c l] q]|] eqn:Hworst; [|discriminate].
    pose proof (ComputeWorstCasePointCount_counts _ _ _ _ Hworst) as [Hl Hq].
    pose proof (ComputeWorstCasePointCount_subpaths _ _ _ _ Hworst) as Hc.
    pose proof (total_nonneg verb_is_conic (Iter path)
                  (fun v => proj1 (verb_is_conic_bounds v))).
    pose proof (total_nonneg verb_is_move (tl (Iter path))
                  (fun v => proj1 (verb_is_move_bounds v))).
    destruct (Z.gtb_spec c 1), (Z.gtb_spec l kMaxIndexedVertexCnt),
      (Z.gtb_spec q kMaxIndexedVertexCnt); cbn [andb orb] in Hmake;
      inversion Hmake; subst op; clear Hmake;
      cbn [fPaths fMaxLineVertices fMaxQuadVertices fIsIndexed paths_total fPath];
      (split; [lia|]); (split; [lia|]); (split; [intros Hi; try discriminate Hi; lia|]);
      intros Hi; try discriminate Hi;
      (eexists; split; [reflexivity|]); cbn [fPath]; lia.
  - exact IH.
  - apply onCombineIfPossible_merged in Hmerge.
    destruct Hmerge as (Hl & Hq & Hp & _ & Hi & _ & Hlk & Hqk & _).
    destruct IH1 as (Hl1 & Hq1 & _), IH2 as (Hl2 & Hq2 & _).
    rewrite Hl, Hq, Hp, Hi, !paths_total_app.
    split; [lia|]. split; [lia|]. split; [intros _; lia|]. intros Hf. discriminate Hf.
Qed.

(** X12.  A batch that is not indexed is drawn as one triangle fan, which is
    right for a single contour only; an indexed one addresses its vertices
    with 16-bit indices.  Every built op fits its mode: not indexed, it has
    exactly one path, and that path has no move verb after its first verb;
    indexed, its two worst-case counts are at most 65535 / 3. *)
Theorem built_op_fits_its_mode (op : MSAAPathOp) :
  Built op ->
  (fIsIndexed op = false ->
   exists pathInfo,
     fPaths op = [pathInfo]
     /\ total verb_is_move (tl (Iter (fPath pathInfo))) = 0)
  /\ (fIsIndexed op = true ->
      0 <= fMaxLineVertices op <= 21845 /\ 0 <= fMaxQuadVertices op <= 21845).
Proof.
  intros Hbuilt. destruct (Built_counts op Hbuilt) as (Hl & Hq & Hi & Hf).
  split; [exact Hf|]. intros Hidx. specialize (Hi Hidx).
  pose proof (paths_total_nonneg verb_line_vertices (fPaths op) verb_line_vertices_nonneg).
  pose proof (paths_total_nonneg verb_quad_vertices (fPaths op)
                (fun v => proj1 (verb_quad_vertices_le v))).
  rewrite kMaxIndexedVertexCnt_value in Hi. lia.
Qed.

Lemma createGeom_paths_counts (paths : list PathInfo) (m : SkMatrix) isIndexed lq :
  exists lq',
    createGeom_paths paths m isIndexed lq = Some lq'
    /\ l_nextVertex (fst lq') = l_nextVertex (fst lq) + paths_total verb_line_vertices paths
    /\ q_nextVertex (snd lq') = q_nextVertex (snd lq) + paths_total verb_quad_vertices paths.
Proof.
  revert lq. induction paths as [|pathInfo rest IH]; intros lq.
  - exists lq. cbn [createGeom_paths paths_total]. repeat split; lia.
  - destruct (createGeom_counts (fst lq) (snd lq) (fPath pathInfo) m (fColor pathInfo)
                isIndexed) as (l1 & q1 & Hrun & Hl & Hq).
    destruct (IH (l1, q1)) as (lq' & Hrest & Hl' & Hq').
    exists lq'. cbn [createGeom_paths paths_total]. rewrite Hrun.
    split; [exact Hrest|]. cbn [fst snd] in *. lia.
Qed.

Lemma createGeom_paths_grows (paths : list PathInfo) (m : SkMatrix) isIndexed lq lq' :
  createGeom_paths paths m isIndexed lq = Some lq' ->
  l_nextVertex (fst lq) <= l_nextVertex (fst lq')
  /\ q_nextVertex (snd lq) <= q_nextVertex (snd lq')
  /\ Z.of_nat (length (l_indices (fst lq'))) - Z.of_nat (length (l_indices (fst lq)))
     <= 3 * (l_nextVertex (fst lq') - l_nextVertex (fst lq))
  /\ (isIndexed = false ->
      l_indices (fst lq') = l_indices (fst lq) /\ q_indices (snd lq') = q_indices (snd lq)).
Proof.
  revert lq. induction paths as [|pathInfo rest IH]; intros lq H;
    cbn [createGeom_paths] in H.
  - inversion H; subst. repeat split; lia.
  - destruct (createGeom _ _ _ _ _ _) as [[l1 q1]|] eqn:Hrun; [|discriminate].
    apply createGeom_appended, appended_grows in Hrun. cbn [fst snd] in Hrun.
    apply IH in H. cbn [fst snd] in H.
    destruct Hrun as (Ha & Hb & Hc & Hd), H as (Ha' & Hb' & Hc' & Hd').
    split; [lia|]. split; [lia|]. split; [lia|].
    intros Hi. destruct (Hd Hi), (Hd' Hi). split; congruence.
Qed.

Lemma createGeom_paths_in_range (paths : list PathInfo) (m : SkMatrix) isIndexed lq lq' :
  (forall pathInfo, In pathInfo paths -> starts_with_move (Iter (fPath pathInfo)) = true) ->
  createGeom_paths paths m isIndexed lq = Some lq' ->
  indices_in_range (fst lq) ->
  l_nextVertex (fst lq') <= 65536 ->
  indices_in_range (fst lq').
Proof.
  revert lq. induction paths as [|pathInfo rest IH]; intros lq Hmove H Hin Hmax;
    cbn [createGeom_paths] in H.
  - inversion H; subst. exact Hin.
  - destruct (createGeom _ _ _ _ _ _) as [[l1 q1]|] eqn:Hrun; [|discriminate].
    pose proof (createGeom_paths_grows _ _ _ _ _ H) as (Hn & _). cbn [fst] in Hn.
    apply (IH (l1, q1)); auto.
    + intros pi Hpi. apply Hmove. now right.
    + cbn [fst].
      apply (createGeom_in_range _ _ _ _ _ _ _ _ (Hmove _ (or_introl eq_refl)) Hrun);
        auto. lia.
Qed.

Lemma createGeom_paths_sequential (paths : list PathInfo) (m : SkMatrix) lq lq' :
  createGeom_paths paths m true lq = Some lq' ->
  quad_indices_sequential (snd lq) ->
  q_nextVertex (snd lq') <= 65536 ->
  quad_indices_sequential (snd lq').
Proof.
  revert lq. induction paths as [|pathInfo rest IH]; intros lq H Hseq Hmax;
    cbn [createGeom_paths] in H.
  - inversion H; subst. exact Hseq.
  - destruct (createGeom _ _ _ _ _ _) as [[l1 q1]|] eqn:Hrun; [|discriminate].
    pose proof (createGeom_paths_grows _ _ _ _ _ H) as (_ & Hn & _). cbn [snd] in Hn.
    apply (IH (l1, q1)); auto. cbn [snd].
    apply (createGeom_sequential _ _ _ _ _ _ _ Hrun); auto. lia.
Qed.

(** The buffers that [onPrepareDraws] fills for a built op. *)
Lemma prepared_buffers (op : MSAAPathOp) :
  Built op ->
  (forall pathInfo, In pathInfo (fPaths op) ->
                    starts_with_move (Iter (fPath pathInfo)) = true) ->
  exists lines quads,
    createGeom_paths (fPaths op) (fViewMatrix op) (fIsIndexed op)
      ({| l_vertices := []; l_indices := [] |}, {| q_vertices := []; q_indices := [] |})
    = Some (lines, quads)
    /\ 0 <= l_nextVertex lines <= fMaxLineVertices op
    /\ Z.of_nat (length (l_indices lines)) <= 3 * fMaxLineVertices op
    /\ indices_in_range lines
    /\ 0 <= q_nextVertex quads <= fMaxQuadVertices op
    /\ Z.of_nat (length (q_indices quads)) <= 3 * fMaxQuadVertices op
    /\ (fIsIndexed op = true -> quad_indices_sequential quads)
    /\ (fIsIndexed op = false -> q_indices quads = []).
Proof.
  intros Hbuilt Hmove.
  destruct (Built_counts op Hbuilt) as (Hl & Hq & Hi & _).
  pose proof (paths_total_nonneg verb_line_vertices (fPaths op) verb_line_vertices_nonneg).
  pose proof (paths_total_nonneg verb_quad_vertices (fPaths op)
                (fun v => proj1 (verb_quad_vertices_le v))).
  destruct (createGeom_paths_counts (fPaths op) (fViewMatrix op) (fIsIndexed op)
              ({| l_vertices := []; l_indices := [] |},
               {| q_vertices := []; q_indices := [] |}))
    as ([lines quads] & Hrun & Hln & Hqn).
  pose proof (createGeom_paths_grows _ _ _ _ _ Hrun) as (_ & _ & Hli & Hnoidx).
  cbn [fst snd l_indices q_indices length] in Hln, Hqn, Hli, Hnoidx.
  change (l_nextVertex {| l_vertices := []; l_indices := [] |}) with 0 in *.
  change (q_nextVertex {| q_vertices := []; q_indices := [] |}) with 0 in *.
  change (Z.of_nat 0) with 0 in *.
  exists lines, quads. split; [exact Hrun|].
  assert (Hk : kMaxIndexedVertexCnt = 21845) by reflexivity.
  assert (Hseq : fIsIndexed op = true -> quad_indices_sequential quads).
  { intros Hidx. rewrite Hidx in Hrun. specialize (Hi Hidx).
    apply (createGeom_paths_sequential _ _ _ _ Hrun); cbn [snd]; [reflexivity|lia]. }
  split; [lia|]. split; [unfold l_nextVertex in *; lia|]. split.
  { destruct (fIsIndexed op) eqn:Hidx.
    - specialize (Hi eq_refl).
      apply (createGeom_paths_in_range _ _ _ _ _ Hmove Hrun); cbn [fst]; [constructor|lia].
    - destruct (Hnoidx eq_refl) as [Hnil _]. unfold indices_in_range. rewrite Hnil.
      constructor. }
  split; [lia|]. split.
  { destruct (fIsIndexed op) eqn:Hidx.
    - rewrite (Hseq eq_refl), length_map, length_seq. unfold q_nextVertex in *. lia.
    - destruct (Hnoidx eq_refl) as [_ Hnil]. rewrite Hnil. cbn [length]. lia. }
  split; [exact Hseq|]. intros Hidx. now destruct (Hnoidx Hidx).
Qed.

(** X13.  For a built op whose paths open with a move verb, what [onPrepareDraws]
    draws satisfies the two assertions that follow its filling loop: no more
    line or quad vertices than [fMaxLineVertices] and [fMaxQuadVertices], no
    more indices than three times as many.  Every line index names a line
    vertex, the quad indices count up over the quad vertices, the lines are a
    triangle fan when not indexed and indexed triangles otherwise, and there
    are at most two draws.  With a buffer provider that never fails the call
    is defined. *)
Theorem onPrepareDraws_draws_within (op : MSAAPathOp) (target : Target) :
  Built op ->
  (forall pathInfo, In pathInfo (fPaths op) ->
                    starts_with_move (Iter (fPath pathInfo)) = true) ->
  (forall draws,
     onPrepareDraws op target = Some draws ->
     Forall (draw_within op) draws /\ (length draws <= 2)%nat)
  /\ ((forall stride count, makeVertexSpace target stride count = true) ->
      (forall count, makeIndexSpace target count = true) ->
      exists draws, onPrepareDraws op target = Some draws).
Proof.
  intros Hbuilt Hmove.
  destruct (prepared_buffers op Hbuilt Hmove)
    as (lines & quads & Hrun & Hl & Hli & Hin & Hq & Hqi & Hseq & Hnil).
  unfold onPrepareDraws. rewrite Hrun. split.
  - intros draws Hdraws.
    assert (Hlines : draw_within op
                       (draw_lines
                          (if fIsIndexed op
                           then GrMesh_initIndexed kTriangles_GrPrimitiveType
                                  (l_nextVertex lines) (Z.of_nat (length (l_indices lines)))
                           else GrMesh_init kTriangleFan_GrPrimitiveType (l_nextVertex lines))
                          lines)).
    { cbn [draw_within]. repeat split; try assumption; lia. }
    assert (Hquads : forall mesh, draw_within op (draw_quads mesh quads)).
    { intros mesh. cbn [draw_within]. repeat split; try assumption; lia. }
    destruct (fMaxLineVertices op =? 0);
      [inversion Hdraws; subst; split; [constructor|cbn; lia]|].
    destruct (negb (makeVertexSpace target lineVertexStride (fMaxLineVertices op)));
      [inversion Hdraws; subst; split; [constructor|cbn; lia]|].
    destruct (fIsIndexed op) eqn:Hidx; cbn [andb] in Hdraws.
    + destruct (negb (makeIndexSpace target (3 * fMaxLineVertices op)));
        [inversion Hdraws; subst; split; [constructor|cbn; lia]|].
      destruct (l_nextVertex lines =? 0), (q_nextVertex quads =? 0);
        try (destruct (negb (makeVertexSpace target quadVertexStride (q_nextVertex quads)));
             [discriminate|];
             destruct (negb (makeIndexSpace target (Z.of_nat (length (q_indices quads)))));
             [discriminate|]);
        inversion Hdraws; subst; cbn [app length];
        (split; [repeat first [apply Forall_nil | apply Forall_cons];
                 first [exact Hlines | apply Hquads]|lia]).
    + destruct (l_nextVertex lines =? 0), (q_nextVertex quads =? 0);
        try (destruct (negb (makeVertexSpace target quadVertexStride (q_nextVertex quads)));
             [discriminate|]);
        inversion Hdraws; subst; cbn [app length];
        (split; [repeat first [apply Forall_nil | apply Forall_cons];
                 first [exact Hlines | apply Hquads]|lia]).
  - intros Hv Hi. rewrite !Hv, !Hi. cbn [negb andb].
    rewrite andb_false_r.
    destruct (fMaxLineVertices op =? 0); [eexists; reflexivity|].
    destruct (q_nextVertex quads =? 0); [eexists; reflexivity|].
    destruct (fIsIndexed op); eexists; reflexivity.
Qed.

End Preparing.

(** ** Passes of [internalDrawPath] and its three callers *)

Section Outcome.
Context {S : Skia}.




(** X16.  [onGetStencilSupport] answers [kNoRestriction_StencilSupport] exactly for
    the shapes [internalDrawPath] draws in one pass under the caller's own
    stencil settings. *)
Theorem onGetStencilSupport_single_pass (shape : GrShape)
    (userStencilSettings : GrUserStencilSettings) :
  onGetStencilSupport shape = kNoRestriction_StencilSupport
  <-> internalDrawPath_plan userStencilSettings shape false
      = Plan {| passCount := 1; passes := [userStencilSettings];
                reverse := false; lastPassIsBounds := false |}.
Proof.
  unfold onGetStencilSupport, internalDrawPath_plan.
  destruct (single_pass_shape shape); [split; reflexivity|].
  destruct (getFillType (asPath shape)); split; discriminate.
Qed.

(** X17.  [onDrawPath] draws the styled shape when the style applies and the
    caller's shape otherwise; a convex shape that is not inverse filled
    gets one path op under the caller's stencil settings, or nothing when
    [Make] gives no op. *)
Theorem onDrawPath_convex (width height : Z) (color : SkColor)
    (fUserStencilSettings : GrUserStencilSettings) (fViewMatrix : SkMatrix)
    (fShape applied : GrShape) (applies : bool) (made : option MSAAPathOp) :
  let shape := if applies then applied else fShape in
  inverseFilled shape = false ->
  knownToBeConvex shape = true ->
  Make color (asPath shape) fViewMatrix
       (GetPathDevBounds (asPath shape) width height fViewMatrix) = Some made ->
  onDrawPath width height color fUserStencilSettings fViewMatrix fShape applies applied
  = Some match made with
         | Some op => (true, [{| userStencil := fUserStencilSettings;
                                 disableColorXPFactory := false;
                                 drawOp := PathOp op |}])
         | None => (false, [])
         end.
Proof.
  intros shape Hinv Hconvex HMake. unfold onDrawPath. fold shape.
  unfold internalDrawPath, internalDrawPath_plan, single_pass_shape.
  rewrite Hinv, Hconvex. cbn [negb passCount].
  change (map Z.of_nat (seq 0 (Z.to_nat 1))) with [0].
  cbn [draw_passes]. unfold draw_pass.
  cbn [passes passCount lastPassIsBounds reverse andb].
  change (Z.to_nat 0) with 0%nat. cbn [nth_error]. rewrite HMake.
  destruct made; reflexivity.
Qed.

(** X18.  [MSAAQuadProcessor::GenKey]: the key is below 4, and two view matrices
    get the same key exactly when they agree on having perspective and on
    being the identity. *)
Theorem MSAAQuadProcessor_GenKey_separates (isIdentity : SkMatrix -> bool)
    (m1 m2 : SkMatrix) :
  0 <= MSAAQuadProcessor_GenKey isIdentity m1 < 4
  /\ (MSAAQuadProcessor_GenKey isIdentity m1 = MSAAQuadProcessor_GenKey isIdentity m2
      <-> hasPerspective m1 = hasPerspective m2 /\ isIdentity m1 = isIdentity m2).
Proof.
  unfold MSAAQuadProcessor_GenKey.
  destruct (hasPerspective m1), (hasPerspective m2), (isIdentity m1), (isIdentity m2);
    cbn; (split; [lia|]); split;
    first [discriminate | intros [? ?]; discriminate | intros _; split; reflexivity
          | reflexivity].
Qed.

(** X19.  [onCombineIfPossible] on two recorded ops whose count sums fit an
    [int]: it merges exactly when the pipelines combine, the view matrices
    are cheaply equal and neither sum exceeds [kMaxIndexedVertexCnt]; a
    refusal leaves [this] as it was, and a merge keeps its pipeline and view
    matrix. *)
Theorem onCombineIfPossible_decides (this that : MSAAPathOp) (caps : GrCaps)
    (this_pipeline that_pipeline : GrPipeline) :
  pipeline this = Some this_pipeline ->
  pipeline that = Some that_pipeline ->
  INT_MIN <= fMaxLineVertices this + fMaxLineVertices that <= INT_MAX ->
  INT_MIN <= fMaxQuadVertices this + fMaxQuadVertices that <= INT_MAX ->
  exists merged this',
    onCombineIfPossible this that caps = Some (merged, this')
    /\ (merged = true <->
        CanCombine this_pipeline (bounds this) that_pipeline (bounds that) caps = true
        /\ cheapEqualTo (fViewMatrix this) (fViewMatrix that) = true
        /\ fMaxLineVertices this + fMaxLineVertices that <= kMaxIndexedVertexCnt
        /\ fMaxQuadVertices this + fMaxQuadVertices that <= kMaxIndexedVertexCnt)
    /\ (merged = false -> this' = this)
    /\ pipeline this' = pipeline this
    /\ fViewMatrix this' = fViewMatrix this.
Proof.
  intros Hp1 Hp2 Hl Hq. unfold onCombineIfPossible. rewrite Hp1, Hp2. cbv beta iota.
  destruct (CanCombine _ _ _ _ _); cbn [negb].
  2: { eexists _, _. split; [reflexivity|]. split; [|auto].
       split; [discriminate|intros (H & _); discriminate H]. }
  destruct (cheapEqualTo _ _); cbn [negb].
  2: { eexists _, _. split; [reflexivity|]. split; [|auto].
       split; [discriminate|intros (_ & H & _); discriminate H]. }
  unfold int_add, int_of.
  destruct (Z.leb_spec INT_MIN (fMaxLineVertices this + fMaxLineVertices that)); [|lia].
  destruct (Z.leb_spec (fMaxLineVertices this + fMaxLineVertices that) INT_MAX); [|lia].
  cbn [andb].
  destruct (Z.gtb_spec (fMaxLineVertices this + fMaxLineVertices that)
              kMaxIndexedVertexCnt).
  { eexists _, _. split; [reflexivity|]. split; [|auto].
    split; [discriminate|intros (_ & _ & H' & _); lia]. }
  destruct (Z.leb_spec INT_MIN (fMaxQuadVertices this + fMaxQuadVertices that)); [|lia].
  destruct (Z.leb_spec (fMaxQuadVertices this + fMaxQuadVertices that) INT_MAX); [|lia].
  cbn [andb].
  destruct (Z.gtb_spec (fMaxQuadVertices this + fMaxQuadVertices that)
              kMaxIndexedVertexCnt).
  { eexists _, _. split; [reflexivity|]. split; [|auto].
    split; [discriminate|intros (_ & _ & _ & H'); lia]. }
  eexists _, _. split; [reflexivity|]. split; [|split; [discriminate|]].
  - split; [intros _|reflexivity]. auto.
  - cbn [pipeline fViewMatrix]. auto.
Qed.

End Outcome.

Section Merging.
Context {S : Skia} {HC : Converters S}.

(** X20.  Two built, recorded ops that are both indexed never overflow the sums
    [onCombineIfPossible] takes: the call is defined, and the merged op, if
    any, is indexed with both counts at most [kMaxIndexedVertexCnt]. *)
Theorem onCombineIfPossible_defined_on_indexed (this that : MSAAPathOp) (caps : GrCaps) :
  Built this -> Built that ->
  fIsIndexed this = true -> fIsIndexed that = true ->
  pipeline this <> None -> pipeline that <> None ->
  exists merged this',
    onCombineIfPossible this that caps = Some (merged, this')
    /\ fIsIndexed this' = true
    /\ 0 <= fMaxLineVertices this' <= kMaxIndexedVertexCnt
    /\ 0 <= fMaxQuadVertices this' <= kMaxIndexedVertexCnt.
Proof.
  intros B1 B2 I1 I2 P1 P2.
  destruct (Built_counts this B1) as (Hl1 & Hq1 & Hi1 & _).
  destruct (Built_counts that B2) as (Hl2 & Hq2 & Hi2 & _).
  specialize (Hi1 I1). specialize (Hi2 I2).
  pose proof (paths_total_nonneg verb_line_vertices (fPaths this) verb_line_vertices_nonneg).
  pose proof (paths_total_nonneg verb_line_vertices (fPaths that) verb_line_vertices_nonneg).
  pose proof (paths_total_nonneg verb_quad_vertices (fPaths this)
                (fun v => proj1 (verb_quad_vertices_le v))).
  pose proof (paths_total_nonneg verb_quad_vertices (fPaths that)
                (fun v => proj1 (verb_quad_vertices_le v))).
  pose proof kMaxIndexedVertexCnt_value as Hk.
  unfold onCombineIfPossible.
  destruct (pipeline this) as [p1|]; [|congruence].
  destruct (pipeline that) as [p2|]; [|congruence].
  cbv beta iota.
  destruct (CanCombine _ _ _ _ _); cbn [negb].
  2: { eexists _, _. split; [reflexivity|]. split; [exact I1|]. lia. }
  destruct (cheapEqualTo _ _); cbn [negb].
  2: { eexists _, _. split; [reflexivity|]. split; [exact I1|]. lia. }
  unfold int_add, int_of, INT_MIN, INT_MAX.
  destruct (Z.leb_spec (- 2147483648) (fMaxLineVertices this + fMaxLineVertices that));
    [|lia].
  destruct (Z.leb_spec (fMaxLineVertices this + fMaxLineVertices that) 2147483647); [|lia].
  cbn [andb].
  destruct (Z.gtb_spec (fMaxLineVertices this + fMaxLineVertices that)
              kMaxIndexedVertexCnt).
  { eexists _, _. split; [reflexivity|]. split; [exact I1|]. lia. }
  destruct (Z.leb_spec (- 2147483648) (fMaxQuadVertices this + fMaxQuadVertices that));
    [|lia].
  destruct (Z.leb_spec (fMaxQuadVertices this + fMaxQuadVertices that) 2147483647); [|lia].
  cbn [andb].
  destruct (Z.gtb_spec (fMaxQuadVertices this + fMaxQuadVertices that)
              kMaxIndexedVertexCnt).
  { eexists _, _. split; [reflexivity|]. split; [exact I1|]. lia. }
  eexists _, _. split; [reflexivity|].
  cbn [fIsIndexed fMaxLineVertices fMaxQuadVertices]. split; [reflexivity|]. lia.
Qed.

End Merging.

Section Making.
Context {S : Skia} {HC : Converters S}.

(** X21.  What [Make] puts into an op, read off the verbs of the path: the
    two worst-case counts are the vertices [createGeom] writes for these
    verbs plus one line vertex and three quad vertices per conic verb, and
    the op is indexed exactly when a move verb follows the first verb.  The
    op holds the one path, the view matrix and the bounds given, and has no
    pipeline yet. *)
Theorem Make_builds (color : SkColor) (path : SkPath) (viewMatrix : SkMatrix)
    (devBounds : SkRect) (op : MSAAPathOp) :
  Make color path viewMatrix devBounds = Some (Some op) ->
  fPaths op = [ {| fColor := color; fPath := path |} ]
  /\ fViewMatrix op = viewMatrix
  /\ bounds op = devBounds
  /\ pipeline op = None
  /\ fMaxLineVertices op
     = total verb_line_vertices (Iter path) + total verb_is_conic (Iter path)
  /\ fMaxQuadVertices op
     = total verb_quad_vertices (Iter path) + 3 * total verb_is_conic (Iter path)
  /\ (fIsIndexed op = true <-> 0 < total verb_is_move (tl (Iter path))).
Proof.
  unfold Make. intros Hmake.
  destruct (ComputeWorstCasePointCount path) as [[[c l] q]|] eqn:Hworst; [|discriminate].
  pose proof (ComputeWorstCasePointCount_counts _ _ _ _ Hworst) as [Hl Hq].
  pose proof (ComputeWorstCasePointCount_subpaths _ _ _ _ Hworst) as Hc.
  destruct ((c >? 1) && ((l >? kMaxIndexedVertexCnt) || (q >? kMaxIndexedVertexCnt)));
    [discriminate|].
  inversion Hmake; subst op; clear Hmake.
  cbn [fPaths fViewMatrix bounds pipeline fMaxLineVertices fMaxQuadVertices fIsIndexed].
  split; [reflexivity|]. split; [reflexivity|]. split; [reflexivity|].
  split; [reflexivity|]. split; [exact Hl|]. split; [exact Hq|].
  destruct (Z.gtb_spec c 1); split; intros Hidx;
    first [lia | discriminate | reflexivity].
Qed.

End Making.

Section LineFirst.
Context {S : Skia}.

(** X22.  Why index validity asks for a verb list that opens with a move
    verb: were a line verb first, indexed filling of empty buffers
    would compute [prevIdx] as [(uint16_t)(0 - 1)] and begin the index
    buffer with 0, 65535, 0, naming a vertex that a buffer of at most 65535
    vertices does not have. *)
Theorem createGeom_line_first_wraps (quads : MSAAQuadVertices) (path : SkPath)
    (m : SkMatrix) (color : SkColor) (p0 p1 : SkPoint) (rest : list Verb)
    (lines' : MSAALineVertices) (quads' : MSAAQuadVertices) :
  Iter path = kLine_Verb p0 p1 :: rest ->
  createGeom {| l_vertices := []; l_indices := [] |} quads path m color true
  = Some (lines', quads') ->
  (exists li, l_indices lines' = [0; 65535; 0] ++ li)
  /\ (l_nextVertex lines' <= 65535 -> ~ indices_in_range lines').
Proof.
  intros Hiter H. unfold createGeom in H. rewrite Hiter in H.
  destruct (createGeom_loop _ _ _ _) as [st|] eqn:Hrun; [|discriminate].
  inversion H; subst; clear H.
  cbn [createGeom_loop createGeom_verb g_lines g_quads g_subpathIdxStart g_first] in Hrun.
  change (l_nextVertex {| l_vertices := []; l_indices := [] |}) with 0 in Hrun.
  change (uint16_t (0 - 1)) with 65535 in Hrun.
  change (uint16_t 0) with 0 in Hrun.
  change (65535 >? 0) with true in Hrun. cbv beta iota in Hrun.
  apply createGeom_loop_appended in Hrun.
  destruct Hrun as (lv & li & qv & qi & k & Hv & Hi & _).
  cbn [fst g_lines l_push append_contour_edge_indices l_indices l_vertices app] in Hi.
  change (uint16_t 65535) with 65535 in Hi.
  change (uint16_t (65535 + 1)) with 0 in Hi.
  assert (Hex : exists li, l_indices (g_lines st) = [0; 65535; 0] ++ li)
    by (exists li; exact Hi).
  split; [exact Hex|]. intros Hmax Hin. unfold indices_in_range in Hin.
  rewrite Hi in Hin. inversion Hin as [|? ? _ Htl]; subst.
  inversion Htl as [|? ? Hbad _]; subst. lia.
Qed.

End LineFirst.
End RendererMore.

(** ** The further properties at concrete paths *)

Module RendererMoreExamples.

Import GrMSAAPathRenderer Example RendererProofs.

Lemma createGeom_appends_witness :
  appended 7 true (no_lines, no_quads) (one_quad_lines, one_quad_quads).
Proof.
  apply (RendererMore.createGeom_appends (S := skia) no_lines no_quads one_quad identity 7
           true one_quad_lines one_quad_quads).
  reflexivity.
Defined.

Lemma createGeom_indices_in_range_witness : indices_in_range triangle_lines.
Proof.
  apply (RendererMore.createGeom_indices_in_range (S := skia) no_lines no_quads
           (triangle kWinding_FillType) identity 7 true triangle_lines no_quads).
  - reflexivity.
  - reflexivity.
  - apply Forall_nil.
  - vm_compute. discriminate.
Defined.

Lemma createGeom_quad_indices_sequential_witness : quad_indices_sequential one_quad_quads.
Proof.
  apply (RendererMore.createGeom_quad_indices_sequential (S := skia) no_lines no_quads
           one_quad identity 7 one_quad_lines one_quad_quads).
  - reflexivity.
  - reflexivity.
  - vm_compute. discriminate.
Defined.

Lemma built_op_fits_its_mode_witness :
  (fIsIndexed triangle_op = false ->
   exists pathInfo,
     fPaths triangle_op = [pathInfo]
     /\ total verb_is_move (tl (Iter (fPath pathInfo))) = 0)
  /\ (fIsIndexed triangle_op = true ->
      0 <= fMaxLineVertices triangle_op <= 21845
      /\ 0 <= fMaxQuadVertices triangle_op <= 21845).
Proof.
  apply (RendererMore.built_op_fits_its_mode (HC := RendererExamples.example_converters)
           triangle_op).
  apply (Built_Make (S := skia) 7 (triangle kWinding_FillType) doubling (rect 0 0 8 6)).
  reflexivity.
Defined.

Lemma two_contours_op_built : Built (two_contours_op (Some tt)).
Proof.
  apply (Built_recorded (S := skia) (two_contours_op None) tt).
  apply (Built_Make (S := skia) 7 (two_contours 1) identity (rect 0 0 6 6)).
  reflexivity.
Qed.

Lemma onPrepareDraws_draws_within_witness :
  (forall draws,
     onPrepareDraws (two_contours_op (Some tt)) ready_target = Some draws ->
     Forall (draw_within (two_contours_op (Some tt))) draws /\ (length draws <= 2)%nat)
  /\ ((forall stride count, makeVertexSpace ready_target stride count = true) ->
      (forall count, makeIndexSpace ready_target count = true) ->
      exists draws, onPrepareDraws (two_contours_op (Some tt)) ready_target = Some draws).
Proof.
  apply (RendererMore.onPrepareDraws_draws_within
           (HC := RendererExamples.example_converters)
           (two_contours_op (Some tt)) ready_target).
  - exact two_contours_op_built.
  - intros pathInfo [<-|[]]. reflexivity.
Defined.



Lemma onDrawPath_convex_witness :
  onDrawPath (S := skia) 100 100 7 "user"%string doubling
    (shape_of (triangle kWinding_FillType) true) false (shape_of curvy false)
  = Some (true, [single_draw "user"%string triangle_op]).
Proof.
  apply (RendererMore.onDrawPath_convex (S := skia) 100 100 7 "user"%string doubling
           (shape_of (triangle kWinding_FillType) true) (shape_of curvy false) false
           (Some triangle_op)).
  - reflexivity.
  - reflexivity.
  - reflexivity.
Defined.

Lemma onCombineIfPossible_decides_witness :
  exists merged this',
    onCombineIfPossible (S := skia) batch_A batch_B tt = Some (merged, this')
    /\ (merged = true <->
        CanCombine (Skia := skia) tt (bounds batch_A) tt (bounds batch_B) tt = true
        /\ cheapEqualTo (Skia := skia) (fViewMatrix batch_A) (fViewMatrix batch_B) = true
        /\ fMaxLineVertices batch_A + fMaxLineVertices batch_B <= kMaxIndexedVertexCnt
        /\ fMaxQuadVertices batch_A + fMaxQuadVertices batch_B <= kMaxIndexedVertexCnt)
    /\ (merged = false -> this' = batch_A)
    /\ pipeline this' = pipeline batch_A
    /\ fViewMatrix this' = fViewMatrix batch_A.
Proof.
  apply (RendererMore.onCombineIfPossible_decides (S := skia) batch_A batch_B tt tt tt).
  - reflexivity.
  - reflexivity.
  - vm_compute. split; discriminate.
  - vm_compute. split; discriminate.
Defined.

Lemma onCombineIfPossible_defined_on_indexed_witness :
  exists merged this',
    onCombineIfPossible (S := skia) (two_contours_op (Some tt)) (two_contours_op (Some tt)) tt
    = Some (merged, this')
    /\ fIsIndexed this' = true
    /\ 0 <= fMaxLineVertices this' <= kMaxIndexedVertexCnt
    /\ 0 <= fMaxQuadVertices this' <= kMaxIndexedVertexCnt.
Proof.
  apply (RendererMore.onCombineIfPossible_defined_on_indexed
           (HC := RendererExamples.example_converters)
           (two_contours_op (Some tt)) (two_contours_op (Some tt)) tt).
  - exact two_contours_op_built.
  - exact two_contours_op_built.
  - reflexivity.
  - reflexivity.
  - discriminate.
  - discriminate.
Defined.

Lemma Make_builds_witness :
  fPaths (two_contours_op None) = [ @Build_PathInfo skia 7 (two_contours 1) ]
  /\ fViewMatrix (two_contours_op None) = identity
  /\ bounds (two_contours_op None) = rect 0 0 6 6
  /\ pipeline (two_contours_op None) = None
  /\ fMaxLineVertices (two_contours_op None)
     = total (verb_line_vertices (S := skia)) (Iter (Skia := skia) (two_contours 1))
       + total verb_is_conic (Iter (Skia := skia) (two_contours 1))
  /\ fMaxQuadVertices (two_contours_op None)
     = total (verb_quad_vertices (S := skia)) (Iter (Skia := skia) (two_contours 1))
       + 3 * total verb_is_conic (Iter (Skia := skia) (two_contours 1))
  /\ (fIsIndexed (two_contours_op None) = true
      <-> 0 < total verb_is_move (tl (Iter (Skia := skia) (two_contours 1)))).
Proof.
  apply (RendererMore.Make_builds (HC := RendererExamples.example_converters)
           7 (two_contours 1) identity (rect 0 0 6 6) (two_contours_op None)).
  reflexivity.
Defined.

Lemma createGeom_line_first_wraps_witness :
  (exists li, l_indices line_first_lines = [0; 65535; 0] ++ li)
  /\ (l_nextVertex line_first_lines <= 65535 -> ~ indices_in_range line_first_lines).
Proof.
  apply (RendererMore.createGeom_line_first_wraps (S := skia) no_quads line_first identity 7
           (pt 0 0) (pt 1 1) [] line_first_lines no_quads).
  - reflexivity.
  - reflexivity.
Defined.

Lemma ComputeWorstCasePointCount_defined_witness :
  exists subpaths,
    ComputeWorstCasePointCount (S := skia) curvy
    = Some (subpaths,
            total (verb_line_vertices (S := skia)) (Iter (Skia := skia) curvy)
            + total verb_is_conic (Iter (Skia := skia) curvy),
            total (verb_quad_vertices (S := skia)) (Iter (Skia := skia) curvy)
            + 3 * total verb_is_conic (Iter (Skia := skia) curvy)).
Proof.
  apply (ComputeWorstCasePointCount_defined (HC := RendererExamples.example_converters) curvy).
  vm_compute. discriminate.
Defined.

End RendererMoreExamples.
